(** * Reward functions of the GRPO demo notebook

    A shallow embedding of the four reward functions of the GRPO example
    ([match_format_exactly], [match_format_approximately], [check_answer],
    [check_numbers]), of the two compiled patterns they use ([match_format],
    [match_numbers]) and of [extract_hash_answer], together with the Python
    built-ins they call ([str.count], [str.strip], [str.split], [float],
    [re.Pattern.search]).

    Conventions of the embedding:
    - a Python [str] is a list of characters whose code points are below 256
      (one [ascii] per code point);
    - a Python [float] is a binary64 value, Rocq's primitive [float];
    - a Python exception is a constructor of [exn], and a computation that
      may raise returns a [result];
    - [print] writes to standard output; the text written is not part of
      the embedding, but the evaluation of the printed expressions is. *)

From Stdlib Require Import ZArith QArith Qabs Ascii String List Bool Lia Floats.
From stdpp Require Import base list strings gmap.

Set Warnings "-inexact-float,-register-all".
Open Scope list_scope.

(** ** Strings *)

Definition str := list ascii.

Definition code (c : ascii) : N := N_of_ascii c.

Definition lit (s : string) : str := list_ascii_of_string s.

(** [Py_UNICODE_ISSPACE] on code points below 256: what [str.isspace],
    [str.strip] and the pattern category [\s] test. *)
Definition is_space (c : ascii) : bool :=
  let n := code c in
  ((9 <=? n) && (n <=? 13) || (28 <=? n) && (n <=? 32)
   || (n =? 133) || (n =? 160))%N.

(** [Py_UNICODE_ISDECIMAL] on code points below 256: the pattern
    category [\d]. *)
Definition is_digit (c : ascii) : bool :=
  let n := code c in ((48 <=? n) && (n <=? 57))%N.

Definition chr_eqb (a b : ascii) : bool := Ascii.eqb a b.

Fixpoint str_eqb (s t : str) : bool :=
  match s, t with
  | [], [] => true
  | a :: s', b :: t' => chr_eqb a b && str_eqb s' t'
  | _, _ => false
  end.

(** [s.startswith(sub)]. *)
Fixpoint startswith (sub s : str) : bool :=
  match sub, s with
  | [], _ => true
  | _ :: _, [] => false
  | a :: sub', b :: s' => chr_eqb a b && startswith sub' s'
  end.

Fixpoint lstrip_by (p : ascii -> bool) (s : str) : str :=
  match s with
  | c :: s' => if p c then lstrip_by p s' else s
  | [] => []
  end.

Definition rstrip_by (p : ascii -> bool) (s : str) : str :=
  rev (lstrip_by p (rev s)).

Definition strip_by (p : ascii -> bool) (s : str) : str :=
  rstrip_by p (lstrip_by p s).

(** [s.strip()]. *)
Definition strip (s : str) : str := strip_by is_space s.

(** [s.count(sub)]: the number of non-overlapping occurrences, scanning
    from the left; [skip] is the number of characters of the last
    occurrence still to be passed over. *)
Fixpoint count_scan (sub : str) (skip : nat) (s : str) : nat :=
  match s with
  | [] => 0
  | _ :: s' =>
      match skip with
      | S k => count_scan sub k s'
      | O =>
          if startswith sub s
          then S (count_scan sub (length sub - 1) s')
          else count_scan sub 0 s'
      end
  end.

Definition count (s sub : str) : nat :=
  match sub with
  | [] => S (length s)
  | _ :: _ => count_scan sub 0 s
  end.

(** [sub in s]. *)
Fixpoint contains (sub s : str) : bool :=
  startswith sub s ||
  match s with
  | [] => false
  | _ :: s' => contains sub s'
  end.

(** [s.split(sep)] for a non-empty separator; [cur] is the piece being
    read, most recent character first. *)
Fixpoint split_scan (sep : str) (skip : nat) (cur : str) (s : str)
  : list str :=
  match s with
  | [] => [rev cur]
  | c :: s' =>
      match skip with
      | S k => split_scan sep k cur s'
      | O =>
          if startswith sep s
          then rev cur :: split_scan sep (length sep - 1) [] s'
          else split_scan sep 0 (c :: cur) s'
      end
  end.

Definition split (s sep : str) : list str := split_scan sep 0 [] s.

(** ** Exceptions *)

Inductive exn :=
| AttributeError
| IndexError
| KeyError
| TypeError
| ValueError
| ZeroDivisionError.

Inductive result (A : Type) :=
| Ok (a : A)
| Raise (e : exn).

Arguments Ok {A} a.
Arguments Raise {A} e.

Definition bind {A B} (m : result A) (f : A -> result B) : result B :=
  match m with
  | Ok a => f a
  | Raise e => Raise e
  end.

Notation "'let*' x ':=' m 'in' k" := (bind m (fun x => k))
  (at level 10, x name, m at level 100, k at level 200).

(** [try: body / except: handler], for a handler that does not raise. *)
Definition try_except {A} (body : result A) (handler : A) : A :=
  match body with
  | Ok a => a
  | Raise _ => handler
  end.

(** [l[i]] on a list. *)
Definition getitem {A} (l : list A) (i : nat) : result A :=
  match l !! i with
  | Some a => Ok a
  | None => Raise IndexError
  end.

(** ** Values passed as [prompts] and keyword arguments *)

Inductive pyval :=
| PyNone
| PyStr (s : str)
| PyList (l : list pyval).

(** [v[0]]. *)
Definition getitem0 (v : pyval) : result pyval :=
  match v with
  | PyNone => Raise TypeError
  | PyStr [] => Raise IndexError
  | PyStr (c :: _) => Ok (PyStr [c])
  | PyList l => getitem l 0
  end.

(** [d[key]] on a dict. *)
Definition getitem_dict (d : gmap string pyval) (key : string)
  : result pyval :=
  match d !! key with
  | Some v => Ok v
  | None => Raise KeyError
  end.

(** ** Numbers *)

Inductive pynum :=
| PyInt (z : Z)
| PyFloat (f : float).

(** [float(z)] for an [int] in the range of binary64. *)
Definition float_of_int (z : Z) : float :=
  SF2Prim (binary_normalize prec emax z 0 false).

Definition py_add (x y : pynum) : pynum :=
  match x, y with
  | PyInt a, PyInt b => PyInt (a + b)
  | PyInt a, PyFloat g => PyFloat (float_of_int a + g)
  | PyFloat f, PyInt b => PyFloat (f + float_of_int b)
  | PyFloat f, PyFloat g => PyFloat (f + g)
  end.

Definition py_sub (x y : pynum) : pynum :=
  match x, y with
  | PyInt a, PyInt b => PyInt (a - b)
  | PyInt a, PyFloat g => PyFloat (float_of_int a - g)
  | PyFloat f, PyInt b => PyFloat (f - float_of_int b)
  | PyFloat f, PyFloat g => PyFloat (f - g)
  end.

(** [x / y] on floats. *)
Definition truediv (x y : float) : result float :=
  if (y =? 0)%float then Raise ZeroDivisionError else Ok (x / y)%float.

(** ** [float(s)] on a string

    The steps of CPython's [PyFloat_FromString]: code points from 127 on
    are mapped to a space (white space) or to ['?'] (anything else, where
    the text ends); underscores are accepted between two digits only and
    removed; ASCII white space is stripped at both ends; the rest must be,
    in full, a decimal literal or a spelling of infinity or NaN; the
    decimal value is rounded to the nearest binary64, ties to even. *)

Definition is_ascii_str (s : str) : bool :=
  forallb (fun c => (code c <? 128)%N) s.

Fixpoint transform (s : str) : str :=
  match s with
  | [] => []
  | c :: s' =>
      if (code c <? 127)%N then c :: transform s'
      else if is_space c then " "%char :: transform s'
      else ["?"%char]
  end.

Definition transform_decimal_and_space (s : str) : str :=
  if is_ascii_str s then s else transform s.

Fixpoint underscores_ok (prev : ascii) (s : str) : option str :=
  match s with
  | [] => if chr_eqb prev "_" then None else Some []
  | c :: s' =>
      if chr_eqb c "_" then
        if is_digit prev then underscores_ok c s' else None
      else if chr_eqb prev "_" && negb (is_digit c) then None
      else option_map (cons c) (underscores_ok c s')
  end.

Definition remove_underscores (s : str) : option str :=
  if existsb (chr_eqb "_") s then underscores_ok "000"%char s else Some s.

Definition Py_ISSPACE (c : ascii) : bool :=
  let n := code c in ((9 <=? n) && (n <=? 13) || (n =? 32))%N.

Definition to_lower (c : ascii) : ascii :=
  let n := code c in
  if ((65 <=? n) && (n <=? 90))%N then ascii_of_N (n + 32) else c.

(** The rest of [s] after [t], read without regard to case. *)
Fixpoint case_insensitive_match (s t : str) : option str :=
  match t with
  | [] => Some s
  | b :: t' =>
      match s with
      | a :: s' =>
          if chr_eqb (to_lower a) b then case_insensitive_match s' t'
          else None
      | [] => None
      end
  end.

(** The longest prefix of [s] whose characters satisfy [p], and the rest. *)
Fixpoint span (p : ascii -> bool) (s : str) : str * str :=
  match s with
  | c :: s' =>
      if p c then let (a, b) := span p s' in (c :: a, b) else ([], s)
  | [] => ([], [])
  end.

Definition digit_val (c : ascii) : Z := Z.of_N (code c) - 48.

Definition digits_val (ds : str) : Z :=
  fold_left (fun acc c => 10 * acc + digit_val c)%Z ds 0%Z.

Definition sign_of (s : str) : bool * str :=
  match s with
  | "-"%char :: t => (true, t)
  | "+"%char :: t => (false, t)
  | _ => (false, s)
  end.

(** What a literal denotes: NaN, an infinity, or [(-1)^neg * m * 10^e]. *)
Inductive parsed :=
| PNan
| PInf (neg : bool)
| PDec (neg : bool) (m : Z) (e : Z).

Definition MAX_ABS_EXP : Z := 1100000000.
Definition MAX_DIGITS : Z := 1000000000.

(** An exponent part needs a digit; without one it is not read. *)
Definition parse_exponent (s : str) : Z * str :=
  match s with
  | c :: t =>
      if chr_eqb c "e" || chr_eqb c "E" then
        let (esign, t1) := sign_of t in
        let (ds, rest) := span is_digit t1 in
        match ds with
        | [] => (0%Z, s)
        | _ :: _ =>
            let sig := lstrip_by (chr_eqb "0") ds in
            let abs_exp := digits_val sig in
            let e :=
              if (9 <? Z.of_nat (length sig))%Z || (MAX_ABS_EXP <? abs_exp)%Z
              then MAX_ABS_EXP else abs_exp in
            ((if esign then - e else e)%Z, rest)
        end
      else (0%Z, s)
  | [] => (0%Z, s)
  end.

Definition strtod (s : str) : option (parsed * str) :=
  let (neg, s0) := sign_of s in
  let (ip, s1) := span is_digit s0 in
  let (fp, s2) := match s1 with
                  | "."%char :: t => span is_digit t
                  | _ => ([], s1)
                  end in
  let ds := ip ++ fp in
  match ds with
  | [] => None
  | _ :: _ =>
      let ndigits := Z.of_nat (length (lstrip_by (chr_eqb "0") ds)) in
      let fraclen := Z.of_nat (length fp) in
      if (MAX_DIGITS <? ndigits)%Z || (MAX_DIGITS <? fraclen)%Z then None
      else
        let (e, rest) := parse_exponent s2 in
        Some (PDec neg (digits_val ds) (e - fraclen), rest)
  end.

Definition parse_inf_or_nan (s : str) : option (parsed * str) :=
  let (neg, s0) := sign_of s in
  match case_insensitive_match s0 (lit "inf") with
  | Some r =>
      match case_insensitive_match r (lit "inity") with
      | Some r' => Some (PInf neg, r')
      | None => Some (PInf neg, r)
      end
  | None =>
      match case_insensitive_match s0 (lit "nan") with
      | Some r => Some (PNan, r)
      | None => None
      end
  end.

Definition ascii_strtod (s : str) : option (parsed * str) :=
  match strtod s with
  | Some r => Some r
  | None => parse_inf_or_nan s
  end.

(** [(-1)^neg * m * 10^e] rounded to binary64. The first two tests only
    cut the computation short: above [10^400] every value overflows, and
    a value below [10^(-1099)] rounds to zero. *)
Definition round_decimal (neg : bool) (m e : Z) : spec_float :=
  match m with
  | Z0 => S754_zero neg
  | Zpos p =>
      if (400 <? e)%Z then S754_infinity neg
      else if (e + Z.log2 m <? -1100)%Z then S754_zero neg
      else if (0 <=? e)%Z then
        binary_normalize prec emax ((if neg then - m else m) * 10 ^ e) 0 false
      else
        match (10 ^ (- e))%Z with
        | Zpos q =>
            SFdiv prec emax (S754_finite neg p 0) (S754_finite false q 0)
        | _ => S754_nan
        end
  | Zneg _ => S754_nan
  end.

Definition double_of (p : parsed) : float :=
  match p with
  | PNan => nan
  | PInf neg => if neg then neg_infinity else infinity
  | PDec neg m e => SF2Prim (round_decimal neg m e)
  end.

(** [float(s)]: the value, or [ValueError]. *)
Definition float_of_str (s : str) : result float :=
  match remove_underscores (transform_decimal_and_space s) with
  | None => Raise ValueError
  | Some s1 =>
      match ascii_strtod (strip_by Py_ISSPACE s1) with
      | Some (p, []) => Ok (double_of p)
      | _ => Raise ValueError
      end
  end.

(** ** Regular expressions

    The two patterns are compiled with [re.MULTILINE | re.DOTALL], and the
    constructors have the meaning these flags give them. *)

Inductive category := CategorySpace | CategoryDigit.

Inductive set_item :=
| SetLiteral (c : ascii)
| SetCategory (k : category).

(** What matches one character: [.] or a set [[...]]. *)
Inductive atom :=
| AnyAll
| InSet (items : list set_item).

Inductive regex :=
| Literal (s : str)
| AtBeginningLine
| AtEndLine
| MaxRepeat (min : nat) (a : atom)
| MinRepeat (min : nat) (a : atom)
| Subpattern (r : regex)
| Seq (r1 r2 : regex).

Declare Scope regex_scope.
Delimit Scope regex_scope with re.
Bind Scope regex_scope with regex.
Infix ">>" := Seq (at level 60, right associativity) : regex_scope.

Definition in_category (k : category) (c : ascii) : bool :=
  match k with
  | CategorySpace => is_space c
  | CategoryDigit => is_digit c
  end.

Definition in_item (c : ascii) (it : set_item) : bool :=
  match it with
  | SetLiteral c' => chr_eqb c c'
  | SetCategory k => in_category k c
  end.

Definition atom_matches (a : atom) (c : ascii) : bool :=
  match a with
  | AnyAll => true
  | InSet items => existsb (in_item c) items
  end.

(** A position in the subject string: the text [behind] it, nearest
    character first, and the text [ahead]; [group1] is what group 1 holds. *)
Record state := State {
  behind : str;
  ahead : str;
  group1 : option str
}.

Definition newline : ascii := ascii_of_N 10.

Definition at_beginning_line (b : str) : bool :=
  match b with
  | [] => true
  | c :: _ => chr_eqb c newline
  end.

Definition at_end_line (a : str) : bool :=
  match a with
  | [] => true
  | c :: _ => chr_eqb c newline
  end.

(** Greedy repetition: as many characters as match, then one fewer each
    time the rest of the pattern fails, down to [min]. *)
Fixpoint max_repeat {T} (a : atom) (min : nat) (b s : str)
    (k : str -> str -> option T) : option T :=
  let stop := match min with O => k b s | S _ => None end in
  match s with
  | c :: s' =>
      if atom_matches a c then
        match max_repeat a (pred min) (c :: b) s' k with
        | Some r => Some r
        | None => stop
        end
      else stop
  | [] => stop
  end.

(** Lazy repetition: [min] characters, then one more each time the rest
    of the pattern fails. *)
Fixpoint min_repeat {T} (a : atom) (min : nat) (b s : str)
    (k : str -> str -> option T) : option T :=
  match s with
  | [] => match min with O => k b s | S _ => None end
  | c :: s' =>
      match min with
      | O =>
          match k b s with
          | Some r => Some r
          | None =>
              if atom_matches a c then min_repeat a 0 (c :: b) s' k else None
          end
      | S n =>
          if atom_matches a c then min_repeat a n (c :: b) s' k else None
      end
  end.

Definition move (st : state) (b a : str) : state :=
  {| behind := b; ahead := a; group1 := group1 st |}.

(** The text between two positions of one subject string. *)
Definition consumed (st st' : state) : str :=
  rev (take (length (behind st') - length (behind st)) (behind st')).

Definition set_group (st : state) (g : str) : state :=
  {| behind := behind st; ahead := ahead st; group1 := Some g |}.

(** The backtracking matcher: [run r st k] matches [r] at [st] and hands
    each way of matching it, in the order of preference, to the rest of
    the pattern [k], until one succeeds. *)
Fixpoint run (r : regex) (st : state) (k : state -> option state)
  : option state :=
  match r with
  | Literal s =>
      if startswith s (ahead st)
      then k (move st (rev s ++ behind st) (drop (length s) (ahead st)))
      else None
  | AtBeginningLine => if at_beginning_line (behind st) then k st else None
  | AtEndLine => if at_end_line (ahead st) then k st else None
  | MaxRepeat min a =>
      max_repeat a min (behind st) (ahead st) (fun b s => k (move st b s))
  | MinRepeat min a =>
      min_repeat a min (behind st) (ahead st) (fun b s => k (move st b s))
  | Subpattern r' =>
      run r' st (fun st' => k (set_group st' (consumed st st')))
  | Seq r1 r2 => run r1 st (fun st' => run r2 st' k)
  end.

(** A match object: its span and group 1. *)
Record Match := {
  m_start : nat;
  m_end : nat;
  m_group1 : option str
}.

(** [m.group(1)]. *)
Definition group (m : Match) : option str := m_group1 m.

Definition match_at (r : regex) (b a : str) : option state :=
  run r {| behind := b; ahead := a; group1 := None |} Some.

(** The scan of [pattern.search]: the first position, from the left,
    where the pattern matches. *)
Fixpoint search_from (r : regex) (b a : str) : option Match :=
  match match_at r b a with
  | Some st =>
      Some {| m_start := length b; m_end := length (behind st);
              m_group1 := group1 st |}
  | None =>
      match a with
      | [] => None
      | c :: a' => search_from r (c :: b) a'
      end
  end.

(** [pattern.search(s)]. *)
Definition search (r : regex) (s : str) : option Match := search_from r [] s.

(** ** The notebook *)

Definition reasoning_start : str := lit "<start_working_out>".
Definition reasoning_end : str := lit "<end_working_out>".
Definition solution_start : str := lit "<SOLUTION>".
Definition solution_end : str := lit "</SOLUTION>".

Definition spaces : atom := InSet [SetCategory CategorySpace].
Definition digits_or_dot : atom :=
  InSet [SetCategory CategoryDigit; SetLiteral "."%char].

(** [^[\s]{0,}<start_working_out>.+?<end_working_out>.*?<SOLUTION>(.+?)</SOLUTION>[\s]{0,}$] *)
Definition match_format : regex :=
  (AtBeginningLine >> MaxRepeat 0 spaces >>
   Literal reasoning_start >> MinRepeat 1 AnyAll >> Literal reasoning_end >>
   MinRepeat 0 AnyAll >>
   Literal solution_start >> Subpattern (MinRepeat 1 AnyAll) >>
   Literal solution_end >>
   MaxRepeat 0 spaces >> AtEndLine)%re.

(** [<SOLUTION>.*?([\d\.]{1,})] *)
Definition match_numbers : regex :=
  (Literal solution_start >> MinRepeat 0 AnyAll >>
   Subpattern (MaxRepeat 1 digits_or_dot))%re.

(** [extract_hash_answer(text)]; [None] is Python's [None]. *)
Definition extract_hash_answer (text : str) : result (option str) :=
  if negb (contains (lit "####") text) then Ok None
  else
    let* piece := getitem (split text (lit "####")) 1 in
    Ok (Some (strip piece)).

(** *** match_format_exactly *)

(** The body of the loop: the score of one completion. *)
Definition exact_score (completion : str) : pynum :=
  let score := PyInt 0 in
  let response := completion in
  match search match_format response with
  | Some _ => py_add score (PyFloat 3.0)
  | None => score
  end.

Definition match_format_exactly (prompts : pyval) (completions : list str)
    (kargs : gmap string pyval) : list pynum :=
  fold_left (fun scores completion => scores ++ [exact_score completion])
            completions [].

(** *** match_format_approximately *)

Definition marker_score (response marker : str) : pynum :=
  if count response marker =? 1 then PyFloat 0.5 else PyFloat (-0.5).

Definition approximate_score (completion : str) : pynum :=
  let score := PyInt 0 in
  let response := completion in
  let score := py_add score (marker_score response reasoning_start) in
  let score := py_add score (marker_score response reasoning_end) in
  let score := py_add score (marker_score response solution_start) in
  let score := py_add score (marker_score response solution_end) in
  score.

Definition match_format_approximately (prompts : pyval)
    (completions : list str) (kargs : gmap string pyval) : list pynum :=
  fold_left (fun scores completion => scores ++ [approximate_score completion])
            completions [].

(** *** check_answer *)

(** [guess.group(1) if (guess := pattern.search(r)) is not None else None] *)
Definition extract (pattern : regex) (r : str) : option str :=
  match search pattern r with
  | Some guess => group guess
  | None => None
  end.

(** [guess == true_answer], the left side a string. *)
Definition py_eq (guess : str) (true_answer : option str) : bool :=
  match true_answer with
  | Some t => str_eqb guess t
  | None => false
  end.

(** [v.strip()]. *)
Definition strip_method (v : option str) : result str :=
  match v with
  | Some s => Ok (strip s)
  | None => Raise AttributeError
  end.

(** [float(v)]. *)
Definition float_of (v : option str) : result float :=
  match v with
  | Some s => float_of_str s
  | None => Raise TypeError
  end.

(** The body of the loop for a guess that is not [None]. *)
Definition answer_score (guess : str) (true_answer : option str)
  : result pynum :=
  let score := PyInt 0 in
  if py_eq guess true_answer then Ok (py_add score (PyFloat 3.0))
  else
    let* stripped := strip_method true_answer in
    if str_eqb (strip guess) stripped then Ok (py_add score (PyFloat 1.5))
    else
      Ok (try_except
            (let* g := float_of_str guess in
             let* t := float_of true_answer in
             let* ratio := truediv g t in
             Ok (if (0.9 <=? ratio)%float && (ratio <=? 1.1)%float
                 then py_add score (PyFloat 0.5)
                 else if (0.8 <=? ratio)%float && (ratio <=? 1.2)%float
                 then py_add score (PyFloat 0.25)
                 else py_sub score (PyFloat 1.0)))
            (py_sub score (PyFloat 0.5))).

Fixpoint check_answer_loop (pairs : list (option str * option str))
    (scores : list pynum) : result (list pynum) :=
  match pairs with
  | [] => Ok scores
  | (None, _) :: rest => check_answer_loop rest (scores ++ [PyInt 0])
  | (Some guess, true_answer) :: rest =>
      let* score := answer_score guess true_answer in
      check_answer_loop rest (scores ++ [score])
  end.

Definition check_answer (prompts : pyval) (completions : list str)
    (answer : list (option str)) (kargs : gmap string pyval)
  : result (list pynum) :=
  let responses := completions in
  let extracted_responses := map (extract match_format) responses in
  check_answer_loop (zip extracted_responses answer) [].

(** *** check_numbers *)

(** The body of the loop for a guess that is not [None]. *)
Definition number_score (guess : str) (true_answer : option str) : pynum :=
  try_except
    (let* stripped := strip_method true_answer in
     let* t := float_of_str stripped in
     let* g := float_of_str (strip guess) in
     Ok (if (g =? t)%float then PyFloat 1.5 else PyFloat 0.0))
    (PyInt 0).

Fixpoint check_numbers_loop (pairs : list (option str * option str))
    (scores : list pynum) : list pynum :=
  match pairs with
  | [] => scores
  | (None, _) :: rest => check_numbers_loop rest (scores ++ [PyInt 0])
  | (Some guess, true_answer) :: rest =>
      check_numbers_loop rest (scores ++ [number_score guess true_answer])
  end.

(** The four [print] calls between the banners evaluate [question[0]],
    [answer[0]], [responses[0]] and [extracted_responses[0]]. *)
Definition check_numbers (prompts : pyval) (completions : list str)
    (answer : list (option str)) (kargs : gmap string pyval)
  : result (list pynum) :=
  let* question := getitem_dict kargs "question" in
  let responses := completions in
  let extracted_responses := map (extract match_numbers) responses in
  let* _ := getitem0 question in
  let* _ := getitem answer 0 in
  let* _ := getitem responses 0 in
  let* _ := getitem extracted_responses 0 in
  Ok (check_numbers_loop (zip extracted_responses answer) []).

(** * Notions the properties are stated with *)

(** ** Results *)

Definition returns {A} (m : result A) : Prop := exists a, m = Ok a.

Definition raises {A} (m : result A) : Prop := exists e, m = Raise e.

Definition is_string (v : option str) : Prop := v <> None.

(** ** What a pattern denotes *)

(** [denotes r st st']: [r] matches the text between the positions [st]
    and [st'], and leaves group 1 as in [st']. *)
Fixpoint denotes (r : regex) (st st' : state) : Prop :=
  match r with
  | Literal s =>
      exists rest, ahead st = s ++ rest /\ st' = move st (rev s ++ behind st) rest
  | AtBeginningLine => at_beginning_line (behind st) = true /\ st' = st
  | AtEndLine => at_end_line (ahead st) = true /\ st' = st
  | MaxRepeat min a | MinRepeat min a =>
      exists cs rest,
        ahead st = cs ++ rest /\ forallb (atom_matches a) cs = true /\
        min <= length cs /\ st' = move st (rev cs ++ behind st) rest
  | Subpattern r' =>
      exists st1, denotes r' st st1 /\ st' = set_group st1 (consumed st st1)
  | Seq r1 r2 => exists st1, denotes r1 st st1 /\ denotes r2 st1 st'
  end.

(** The matches [pattern.finditer(s)] yields, for a pattern that matches
    no empty text: each search starts where the last match ended. *)
Fixpoint finditer_from (fuel : nat) (r : regex) (s : str) (pos : nat)
  : list Match :=
  match fuel with
  | O => []
  | S fuel' =>
      match search_from r (rev (take pos s)) (drop pos s) with
      | None => []
      | Some m =>
          m :: (if m_end m <=? pos then []
                else finditer_from fuel' r s (m_end m))
      end
  end.

Definition finditer (r : regex) (s : str) : list Match :=
  finditer_from (S (length s)) r s 0.

(** ** Tagged blocks *)

Definition blank (ws : str) : Prop := forallb is_space ws = true.

(** The text a match of [match_format] covers. *)
Definition tagged (ws1 r mid s ws2 : str) : str :=
  ws1 ++ reasoning_start ++ r ++ reasoning_end ++ mid ++
  solution_start ++ s ++ solution_end ++ ws2.

(** The pattern [match_format] matches somewhere in [c]: a tagged text
    that starts a line, up to white space, and ends one. *)
Definition format_occurs (c : str) : Prop :=
  exists pre ws1 r mid s ws2 post,
    c = pre ++ tagged ws1 r mid s ws2 ++ post /\
    at_beginning_line (rev pre) = true /\ blank ws1 /\ r <> [] /\ s <> [] /\
    blank ws2 /\ at_end_line post = true.

(** A completion that is one tagged block, up to white space around it. *)
Definition one_block (ws1 r s ws2 : str) : str :=
  ws1 ++ reasoning_start ++ r ++ reasoning_end ++
  solution_start ++ s ++ solution_end ++ ws2.

(** ** Markers *)

(** The number of places of [s] where [sub] occurs. *)
Fixpoint occurrences (sub s : str) : nat :=
  (if startswith sub s then 1 else 0) +
  match s with
  | [] => 0
  | _ :: s' => occurrences sub s'
  end.

Definition markers : list str :=
  [reasoning_start; reasoning_end; solution_start; solution_end].

(** The marker occurs exactly once. *)
Definition once (c marker : str) : bool := occurrences marker c =? 1.

(** [+0.5] for each marker that occurs exactly once, [-0.5] for each
    other, summed over the four markers. *)
Definition marker_sum (c : str) : float :=
  fold_left (fun acc m => (acc + (if once c m then 0.5 else -0.5))%float)
            markers 0%float.

(** The number of markers that are missing or duplicated. *)
Definition faults (c : str) : nat :=
  length (List.filter (fun m => negb (once c m)) markers).

(** ** The numeric token *)

(** [s.find(sub)], with [None] for Python's [-1]. *)
Fixpoint find (sub s : str) : option nat :=
  if startswith sub s then Some 0
  else match s with
       | [] => None
       | _ :: s' => option_map S (find sub s')
       end.

Definition is_number_char (c : ascii) : bool := is_digit c || chr_eqb c ".".

(** The first maximal run of digits and dots in [s]. *)
Fixpoint first_token (s : str) : option str :=
  match s with
  | [] => None
  | c :: s' =>
      if is_number_char c then Some (span is_number_char s).1
      else first_token s'
  end.

(** The first maximal run of digits and dots after the first
    solution-start marker of [c]. *)
Definition token_after_marker (c : str) : option str :=
  match find solution_start c with
  | None => None
  | Some i => first_token (drop (i + length solution_start) c)
  end.

(** What [match_numbers] does after the marker. *)
Definition numbers_tail : regex :=
  (MinRepeat 0 AnyAll >> Subpattern (MaxRepeat 1 digits_or_dot))%re.

(** ** One score *)

(** The score [check_numbers] gives one pair of the zipped lists. *)
Definition number_item (guess true_answer : option str) : pynum :=
  match guess with
  | None => PyInt 0
  | Some g => number_score g true_answer
  end.

(** What [check_answer] does with one pair of the zipped lists. *)
Definition answer_item (guess true_answer : option str) : result pynum :=
  match guess with
  | None => Ok (PyInt 0)
  | Some g => answer_score g true_answer
  end.

(** The score [check_answer] gives one pair whose ground truth is a
    string. *)
Definition answer_value (guess true_answer : option str) : pynum :=
  try_except (answer_item guess true_answer) (PyInt 0).

(** The score [check_answer] gives a completion and its ground truth. *)
Definition answer_of (c : str) (t : option str) : pynum :=
  answer_value (extract match_format c) t.

(** The score [check_numbers] gives a completion and its ground truth. *)
Definition number_of (c : str) (t : option str) : pynum :=
  number_item (extract match_numbers c) t.

(** [float(guess) / float(true_answer)] *)
Definition ratio_of (guess true_answer : str) : result float :=
  let* g := float_of_str guess in
  let* t := float_of_str true_answer in
  truediv g t.

(** [float(true_answer.strip())] and [float(guess.strip())] *)
Definition numbers_of (guess : str) (true_answer : option str)
  : result (float * float) :=
  let* stripped := strip_method true_answer in
  let* t := float_of_str stripped in
  let* g := float_of_str (strip guess) in
  Ok (g, t).

(** The score of the three bands of [check_answer], from the quotient. *)
Definition band_score (ratio : float) : pynum :=
  if (0.9 <=? ratio)%float && (ratio <=? 1.1)%float then PyFloat 0.5
  else if (0.8 <=? ratio)%float && (ratio <=? 1.2)%float then PyFloat 0.25
  else PyFloat (-1.0).

(** ** Closeness, in exact arithmetic *)

(** The number a decimal literal denotes, as a rational. *)
Definition decimal_value (s : str) : option Q :=
  match strtod s with
  | Some (PDec neg m e, []) =>
      Some (inject_Z (if neg then - m else m) * Qpower (inject_Z 10) e)%Q
  | _ => None
  end.

(** The number a finite binary64 value is, as a rational. *)
Definition float_value (f : float) : option Q :=
  match Prim2SF f with
  | S754_zero _ => Some 0%Q
  | S754_finite neg m e =>
      Some (inject_Z (if neg then Zneg m else Zpos m) * Qpower (inject_Z 2) e)%Q
  | _ => None
  end.

(** [g] is within the fraction [p] of [t]. *)
Definition within (p g t : Q) : Prop := (Qabs (g - t) <= p * Qabs t)%Q.

(** The decimal literals [g] and [t] are that close. *)
Definition within_decimal (p : Q) (g t : str) : Prop :=
  exists qg qt,
    decimal_value g = Some qg /\ decimal_value t = Some qt /\ within p qg qt.

(** The binary64 values [float] reads [g] and [t] as are that close. *)
Definition within_float (p : Q) (g t : str) : Prop :=
  exists fg ft qg qt,
    float_of_str g = Ok fg /\ float_of_str t = Ok ft /\
    float_value fg = Some qg /\ float_value ft = Some qt /\ within p qg qt.

(** ** Sample inputs *)

Definition answer_2 : str := one_block [] (lit "Let me think!") (lit "2") [].
Definition answer_7 : str := one_block [] (lit "x") (lit "7") [].
Definition answer_72 : str := one_block [] (lit "x") (lit " 72 ") [].
Definition answer_09 : str := one_block [] (lit "x") (lit "0.09") [].
Definition answer_11 : str :=
  one_block [] (lit "x") (lit "1.1000000000000000001") [].
Definition answer_152 : str := one_block [] (lit "x") (lit "1.5.2") [].

Definition answer_words : str :=
  lit "<SOLUTION>about 0.34 or 0.35</SOLUTION>".

(** Two complete blocks on separate lines. *)
Definition two_blocks : str :=
  one_block [] (lit "a") (lit "1") [] ++ [newline] ++
  one_block [] (lit "b") (lit "2") [].

Definition question_kargs : gmap string pyval :=
  {[ "question" := PyList [PyStr (lit "How many?")] ]}.

(** ** Notions of the further properties *)

Definition hashes : str := lit "####".

(** The text before the first occurrence of [sep] in [s], or all of [s]. *)
Definition before (sep s : str) : str :=
  match find sep s with
  | Some j => take j s
  | None => s
  end.

(** The text after the first occurrence of [sep] in [s]. *)
Definition after (sep s : str) : option str :=
  match find sep s with
  | Some i => Some (drop (i + length sep) s)
  | None => None
  end.

(** [s] neither starts nor ends with white space. *)
Definition stripped (s : str) : Prop :=
  match s with
  | [] => True
  | c :: _ => is_space c = false
  end /\
  match rev s with
  | [] => True
  | c :: _ => is_space c = false
  end.

Definition tag_open : ascii := "<"%char.

(** [s] holds no [<], hence no marker. *)
Definition tag_free (s : str) : Prop := existsb (chr_eqb tag_open) s = false.

(** The number of [<] in [s]. *)
Definition lts (s : str) : nat := length (List.filter (chr_eqb tag_open) s).

(** The values a score of [check_answer] can take. *)
Definition answer_scores : list pynum :=
  [PyInt 0; PyFloat 3.0; PyFloat 1.5; PyFloat 0.5; PyFloat 0.25;
   PyFloat (-1.0); PyFloat (-0.5)].

(** The values a score of [check_numbers] can take. *)
Definition number_scores : list pynum := [PyInt 0; PyFloat 1.5; PyFloat 0.0].

Definition gsm8k_answer : str :=
  lit "Natalia sold 48/2 = 24 clips in May. 48+24 = 72 clips. #### 72".

(** A block with text [a] before it and text [z] after it. *)
Definition block_in (a r s z : str) : str :=
  a ++ reasoning_start ++ r ++ reasoning_end ++
  solution_start ++ s ++ solution_end ++ z.

(** Only white space lies between the start of a line and the end of [a]. *)
Definition opens_line (a : str) : Prop :=
  exists p w, a = p ++ w /\ at_beginning_line (rev p) = true /\ blank w.

(** Only white space lies between the start of [z] and the end of a line. *)
Definition closes_line (z : str) : Prop :=
  exists w q, z = w ++ q /\ blank w /\ at_end_line q = true.

(** * Properties *)

(** ** The loops *)

Section Loops.
Context {A B : Type} (f : A -> B).

Lemma append_loop (l : list A) (acc : list B) :
  fold_left (fun scores x => scores ++ [f x]) l acc = acc ++ map f l.
Proof.
  revert acc. induction l as [|x l IH]; intros acc; simpl.
  - now rewrite app_nil_r.
  - rewrite IH, <- app_assoc. reflexivity.
Qed.
End Loops.

Lemma match_format_exactly_map prompts completions kargs :
  match_format_exactly prompts completions kargs = map exact_score completions.
Proof. unfold match_format_exactly. now rewrite append_loop. Qed.

Lemma match_format_approximately_map prompts completions kargs :
  match_format_approximately prompts completions kargs
  = map approximate_score completions.
Proof. unfold match_format_approximately. now rewrite append_loop. Qed.

Lemma check_numbers_loop_map pairs scores :
  check_numbers_loop pairs scores
  = scores ++ map (fun p => number_item p.1 p.2) pairs.
Proof.
  revert scores. induction pairs as [|[[g|] t] pairs IH]; intros scores; simpl.
  - now rewrite app_nil_r.
  - rewrite IH, <- app_assoc. reflexivity.
  - rewrite IH, <- app_assoc. reflexivity.
Qed.

(** ** Strings *)

Lemma chr_eqb_eq a b : chr_eqb a b = true <-> a = b.
Proof. apply Ascii.eqb_eq. Qed.

Lemma str_eqb_eq s t : str_eqb s t = true <-> s = t.
Proof.
  revert t. induction s as [|a s IH]; intros [|b t]; simpl;
    try (split; [discriminate | congruence]); [tauto|].
  rewrite andb_true_iff, chr_eqb_eq, IH. split.
  - intros [-> ->]. reflexivity.
  - intros [= -> ->]. split; reflexivity.
Qed.

Lemma str_eqb_neq s t : str_eqb s t = false <-> s <> t.
Proof.
  rewrite <- str_eqb_eq. destruct (str_eqb s t); split; congruence.
Qed.

Lemma startswith_app sub rest : startswith sub (sub ++ rest) = true.
Proof.
  induction sub as [|a sub IH]; simpl; [reflexivity|].
  rewrite IH, andb_true_r. now apply chr_eqb_eq.
Qed.

Lemma startswith_inv sub s :
  startswith sub s = true -> s = sub ++ drop (length sub) s.
Proof.
  revert s. induction sub as [|a sub IH]; intros [|b s]; simpl;
    try discriminate; try reflexivity.
  rewrite andb_true_iff, chr_eqb_eq. intros [-> H].
  f_equal. now apply IH.
Qed.

(** ** The matcher and what a pattern denotes *)

Section Repeat.
Context {T : Type} (a : atom) (k : str -> str -> option T).

Lemma max_repeat_sound s : forall min b r,
  max_repeat a min b s k = Some r ->
  exists cs rest,
    s = cs ++ rest /\ forallb (atom_matches a) cs = true /\
    min <= length cs /\ k (rev cs ++ b) rest = Some r.
Proof.
  induction s as [|c s IH]; intros min b r H; simpl in H.
  - destruct min; [|discriminate]. exists [], []. auto.
  - assert (Hstop : match min with O => k b (c :: s) | S _ => None end = Some r ->
                    exists cs rest, c :: s = cs ++ rest /\
                      forallb (atom_matches a) cs = true /\
                      min <= length cs /\ k (rev cs ++ b) rest = Some r).
    { destruct min; [|discriminate]. intros Hk. exists [], (c :: s). auto. }
    destruct (atom_matches a c) eqn:Hc; [|auto].
    destruct (max_repeat a (pred min) (c :: b) s k) as [r'|] eqn:E; [|auto].
    injection H as ->.
    destruct (IH _ _ _ E) as (cs & rest & -> & Hall & Hlen & Hk).
    exists (c :: cs), rest. simpl. rewrite Hc, Hall, <- app_assoc.
    repeat split; [lia | exact Hk].
Qed.

Lemma max_repeat_complete cs : forall min b rest,
  forallb (atom_matches a) cs = true -> min <= length cs ->
  is_Some (k (rev cs ++ b) rest) ->
  is_Some (max_repeat a min b (cs ++ rest) k).
Proof.
  induction cs as [|c cs IH]; intros min b rest Hall Hlen Hk; simpl in *.
  - destruct min; [|lia]. destruct rest as [|c s]; simpl; [exact Hk|].
    destruct (atom_matches a c); [|exact Hk].
    destruct (max_repeat a 0 (c :: b) s k); [eauto | exact Hk].
  - apply andb_true_iff in Hall as [Hc Hall]. rewrite Hc.
    rewrite <- app_assoc in Hk.
    destruct (IH (pred min) (c :: b) rest Hall ltac:(lia) Hk) as [r ->].
    eauto.
Qed.

Lemma min_repeat_sound s : forall min b r,
  min_repeat a min b s k = Some r ->
  exists cs rest,
    s = cs ++ rest /\ forallb (atom_matches a) cs = true /\
    min <= length cs /\ k (rev cs ++ b) rest = Some r.
Proof.
  induction s as [|c s IH]; intros min b r H; simpl in H.
  - destruct min; [|discriminate]. exists [], []. auto.
  - assert (Hmore : forall n, atom_matches a c = true ->
              min_repeat a n (c :: b) s k = Some r -> n <= min -> min <= S n ->
              exists cs rest, c :: s = cs ++ rest /\
                forallb (atom_matches a) cs = true /\
                min <= length cs /\ k (rev cs ++ b) rest = Some r).
    { intros n Hc E Hle1 Hle2.
      destruct (IH _ _ _ E) as (cs & rest & -> & Hall & Hlen & Hk).
      exists (c :: cs), rest. simpl. rewrite Hc, Hall, <- app_assoc.
      repeat split; [lia | exact Hk]. }
    destruct min as [|n].
    + destruct (k b (c :: s)) as [r'|] eqn:Ek.
      * injection H as ->. exists [], (c :: s). auto.
      * destruct (atom_matches a c) eqn:Hc; [|discriminate].
        apply (Hmore 0); auto.
    + destruct (atom_matches a c) eqn:Hc; [|discriminate].
      apply (Hmore n); auto.
Qed.

Lemma min_repeat_complete cs : forall min b rest,
  forallb (atom_matches a) cs = true -> min <= length cs ->
  is_Some (k (rev cs ++ b) rest) ->
  is_Some (min_repeat a min b (cs ++ rest) k).
Proof.
  induction cs as [|c cs IH]; intros min b rest Hall Hlen Hk; simpl in *.
  - destruct min; [|lia]. destruct rest as [|c s]; simpl; [exact Hk|].
    destruct Hk as [r ->]. eauto.
  - apply andb_true_iff in Hall as [Hc Hall]. rewrite Hc.
    rewrite <- app_assoc in Hk.
    destruct min as [|n].
    + destruct (k b (c :: cs ++ rest)); [eauto|].
      apply IH; [exact Hall | lia | exact Hk].
    + apply IH; [exact Hall | lia | exact Hk].
Qed.
End Repeat.

Lemma run_sound r : forall st k res,
  run r st k = Some res -> exists st', denotes r st st' /\ k st' = Some res.
Proof.
  induction r as [s| | |min a|min a|r IH|r1 IH1 r2 IH2]; intros st k res H;
    simpl in H.
  - destruct (startswith s (ahead st)) eqn:E; [|discriminate].
    eexists. split; [|exact H]. eexists. split; [|reflexivity].
    now apply startswith_inv.
  - destruct (at_beginning_line (behind st)) eqn:E; [|discriminate].
    exists st. simpl. auto.
  - destruct (at_end_line (ahead st)) eqn:E; [|discriminate].
    exists st. simpl. auto.
  - apply max_repeat_sound in H as (cs & rest & ? & ? & ? & Hk).
    eexists. split; [|exact Hk]. exists cs, rest. auto.
  - apply min_repeat_sound in H as (cs & rest & ? & ? & ? & Hk).
    eexists. split; [|exact Hk]. exists cs, rest. auto.
  - apply IH in H as (st1 & Hd & Hk).
    eexists. split; [|exact Hk]. exists st1. auto.
  - apply IH1 in H as (st1 & Hd1 & H). apply IH2 in H as (st2 & Hd2 & Hk).
    exists st2. split; [|exact Hk]. exists st1. auto.
Qed.

Lemma run_complete r : forall st st' k,
  denotes r st st' -> is_Some (k st') -> is_Some (run r st k).
Proof.
  induction r as [s| | |min a|min a|r IH|r1 IH1 r2 IH2]; intros st st' k Hd Hk;
    simpl in Hd |- *.
  - destruct Hd as (rest & Ha & ->). rewrite Ha, startswith_app.
    now rewrite drop_app_length.
  - destruct Hd as [-> ->]. exact Hk.
  - destruct Hd as [-> ->]. exact Hk.
  - destruct Hd as (cs & rest & -> & Hall & Hlen & ->).
    now apply max_repeat_complete.
  - destruct Hd as (cs & rest & -> & Hall & Hlen & ->).
    now apply min_repeat_complete.
  - destruct Hd as (st1 & Hd & ->). now apply (IH st st1).
  - destruct Hd as (st1 & Hd1 & Hd2). apply (IH1 st st1); [exact Hd1|].
    now apply (IH2 st1 st').
Qed.

(** ** Searching *)

Lemma search_from_some r : forall a b,
  is_Some (search_from r b a) <->
  exists pre rest, a = pre ++ rest /\ is_Some (match_at r (rev pre ++ b) rest).
Proof.
  induction a as [|c a IH]; intros b; simpl.
  - destruct (match_at r b []) eqn:E.
    + split; [|eauto]. intros _. exists [], []. simpl. rewrite E. eauto.
    + split; [intros [? [=]]|].
      intros (pre & rest & Hp & Hs). symmetry in Hp. apply app_eq_nil in Hp as [-> ->].
      simpl in Hs. rewrite E in Hs. destruct Hs as [? [=]].
  - destruct (match_at r b (c :: a)) eqn:E.
    + split; [|eauto]. intros _. exists [], (c :: a). simpl. rewrite E. eauto.
    + rewrite IH. split.
      * intros (pre & rest & -> & Hs). exists (c :: pre), rest. simpl.
        rewrite <- app_assoc. auto.
      * intros (pre & rest & Hp & Hs). destruct pre as [|c' pre]; simpl in *.
        -- subst rest. rewrite E in Hs. destruct Hs as [? [=]].
        -- injection Hp as -> ->. exists pre, rest. rewrite <- app_assoc in Hs. auto.
Qed.

Lemma match_at_some r b a :
  is_Some (match_at r b a) <-> exists st', denotes r (State b a None) st'.
Proof.
  unfold match_at. split.
  - intros [res H]. apply run_sound in H as (st' & Hd & _). eauto.
  - intros [st' Hd]. apply (run_complete r _ st'); eauto.
Qed.

Lemma forallb_spaces ws : forallb (atom_matches spaces) ws = forallb is_space ws.
Proof.
  induction ws as [|c ws IH]; simpl atom_matches; simpl; [reflexivity|].
  now rewrite IH, orb_false_r.
Qed.

Lemma forallb_any cs : forallb (atom_matches AnyAll) cs = true.
Proof. induction cs; simpl; auto. Qed.

Lemma consumed_app b a g cs a' g' :
  consumed (State b a g) (State (rev cs ++ b) a' g') = cs.
Proof.
  unfold consumed. cbn [behind].
  rewrite length_app, Nat.add_sub, take_app_length.
  apply rev_involutive.
Qed.

(** Reduces the projections of positions built by [move] and [set_group]. *)
Ltac positions := cbn [ahead behind move group1 set_group].
Ltac positions_all := cbn [ahead behind move group1 set_group] in *.

Lemma denotes_match_format b a g st' :
  denotes match_format (State b a g) st' <->
  exists ws1 r mid s ws2 post,
    a = tagged ws1 r mid s ws2 ++ post /\
    at_beginning_line b = true /\ blank ws1 /\ r <> [] /\ s <> [] /\
    blank ws2 /\ at_end_line post = true /\
    st' = State (rev (tagged ws1 r mid s ws2) ++ b) post (Some s).
Proof.
  unfold match_format, tagged, blank. cbn [denotes]. split.
  - intros (s1 & [Hbol ->] & s2 & (ws1 & a2 & Ha & Hws1 & _ & ->) & H).
    positions_all.
    destruct H as (s3 & (a3 & -> & ->) & H).
    positions_all.
    destruct H as (s4 & (r & a4 & -> & _ & Hr & ->) & H).
    positions_all.
    destruct H as (s5 & (a5 & -> & ->) & H).
    positions_all.
    destruct H as (s6 & (mid & a6 & -> & _ & _ & ->) & H).
    positions_all.
    destruct H as (s7 & (a7 & -> & ->) & H).
    positions_all.
    destruct H as (s8 & (s9 & (s & a8 & -> & _ & Hs & ->) & ->) & H).
    positions_all.
    destruct H as (s10 & (a9 & -> & ->) & H).
    positions_all.
    destruct H as (s11 & (ws2 & post & -> & Hws2 & _ & ->) & Heol & ->).
    positions_all.
    exists ws1, r, mid, s, ws2, post.
    rewrite forallb_spaces in Hws1, Hws2.
    repeat split; auto.
    + subst a. now rewrite <- !app_assoc.
    + intros ->. simpl in Hr. lia.
    + intros ->. simpl in Hs. lia.
    + unfold move. cbn [group1]. rewrite consumed_app.
      f_equal. rewrite !rev_app_distr, <- !app_assoc. reflexivity.
  - intros (ws1 & r & mid & s & ws2 & post & -> & Hbol & Hws1 & Hr & Hs & Hws2
            & Heol & ->).
    eexists. split; [split; [exact Hbol | reflexivity]|].
    eexists. split.
    { exists ws1. eexists. cbn [ahead]. rewrite <- !app_assoc.
      split; [reflexivity|]. rewrite forallb_spaces.
      split; [exact Hws1|]. split; [lia | reflexivity]. }
    positions.
    eexists. split. { eexists. split; reflexivity. }
    positions.
    eexists. split.
    { exists r. eexists. split; [reflexivity|]. split; [apply forallb_any|].
      split; [|reflexivity]. destruct r; [congruence | simpl; lia]. }
    positions.
    eexists. split. { eexists. split; reflexivity. }
    positions.
    eexists. split.
    { exists mid. eexists. split; [reflexivity|]. split; [apply forallb_any|].
      split; [lia | reflexivity]. }
    positions.
    eexists. split. { eexists. split; reflexivity. }
    positions.
    eexists. split.
    { eexists. split; [|reflexivity].
      exists s. eexists. split; [reflexivity|]. split; [apply forallb_any|].
      split; [|reflexivity]. destruct s; [congruence | simpl; lia]. }
    positions.
    eexists. split. { eexists. split; reflexivity. }
    positions.
    eexists. split.
    { exists ws2, post. split; [reflexivity|]. rewrite forallb_spaces.
      split; [exact Hws2|]. split; [lia | reflexivity]. }
    positions.
    split; [exact Heol|].
    unfold move. cbn [group1]. rewrite consumed_app.
    f_equal. rewrite !rev_app_distr, <- !app_assoc. reflexivity.
Qed.

Lemma search_match_format c :
  is_Some (search match_format c) <-> format_occurs c.
Proof.
  unfold search, format_occurs. rewrite search_from_some. split.
  - intros (pre & rest & -> & H). rewrite app_nil_r in H.
    apply match_at_some in H as [st' H].
    apply denotes_match_format in H
      as (ws1 & r & mid & s & ws2 & post & -> & ? & ? & ? & ? & ? & ? & _).
    exists pre, ws1, r, mid, s, ws2, post. auto 10.
  - intros (pre & ws1 & r & mid & s & ws2 & post & -> & ? & ? & ? & ? & ? & ?).
    exists pre, (tagged ws1 r mid s ws2 ++ post). split; [reflexivity|].
    rewrite app_nil_r. apply match_at_some. eexists.
    apply denotes_match_format.
    exists ws1, r, mid, s, ws2, post. auto 10.
Qed.

Lemma search_from_inv r a : forall b m,
  search_from r b a = Some m ->
  exists pre rest st,
    a = pre ++ rest /\ match_at r (rev pre ++ b) rest = Some st /\
    m_group1 m = group1 st.
Proof.
  induction a as [|c a IH]; intros b m; cbn [search_from].
  - destruct (match_at r b []) as [st|] eqn:E; [|discriminate].
    intros [= <-]. exists [], [], st. auto.
  - destruct (match_at r b (c :: a)) as [st|] eqn:E.
    + intros [= <-]. exists [], (c :: a), st. auto.
    + intros H. apply IH in H as (pre & rest & st & -> & H & Hg).
      exists (c :: pre), rest, st. simpl. rewrite <- app_assoc. auto.
Qed.

(** The answer [check_answer] extracts is the text of a tagged block
    between its solution markers. *)
Lemma extract_match_format_inv c g :
  extract match_format c = Some g ->
  exists pre ws1 r mid ws2 post,
    c = pre ++ tagged ws1 r mid g ws2 ++ post /\ g <> [].
Proof.
  unfold extract, search, group.
  destruct (search_from match_format [] c) as [m|] eqn:E; [|discriminate].
  intros Hg. apply search_from_inv in E as (pre & rest & st & -> & H & Hm).
  unfold match_at in H. apply run_sound in H as (st' & Hd & [= ->]).
  apply denotes_match_format in Hd
    as (ws1 & r & mid & s & ws2 & post & -> & _ & _ & _ & Hs & _ & _ & ->).
  cbn [group1] in Hm. rewrite Hm in Hg. injection Hg as <-.
  exists pre, ws1, r, mid, ws2, post. auto.
Qed.

Lemma exact_score_cases c :
  (is_Some (search match_format c) /\ exact_score c = PyFloat 3.0) \/
  (search match_format c = None /\ exact_score c = PyInt 0).
Proof.
  unfold exact_score. destruct (search match_format c) as [m|].
  - left. split; [eauto | reflexivity].
  - right. auto.
Qed.

Lemma exact_score_three c :
  exact_score c = PyFloat 3.0 <-> is_Some (search match_format c).
Proof.
  destruct (exact_score_cases c) as [[H ->]|[H ->]]; [tauto|].
  rewrite H. split; [discriminate | intros [? [=]]].
Qed.

Lemma finditer_nonempty r c :
  1 <= length (finditer r c) <-> is_Some (search r c).
Proof.
  unfold finditer, search. cbn [finditer_from]. rewrite take_0, drop_0.
  cbn [rev]. destruct (search_from r [] c) as [m|]; simpl.
  - split; [eauto | lia].
  - split; [lia | intros [? [=]]].
Qed.

(** ** The exact-format reward *)

Lemma one_block_occurs ws1 r s ws2 :
  blank ws1 -> blank ws2 -> r <> [] -> s <> [] ->
  format_occurs (one_block ws1 r s ws2).
Proof.
  intros Hws1 Hws2 Hr Hs. exists [], ws1, r, [], s, ws2, [].
  unfold one_block, tagged. rewrite app_nil_r. simpl. auto 10.
Qed.

(** C1: a completion that is, up to leading and trailing white space, one
    tagged block (reasoning-start marker, non-empty reasoning text,
    reasoning-end marker, solution-start marker, non-empty solution text,
    solution-end marker) is given the score 3.0 by [match_format_exactly],
    at its place in the list of scores. *)
Theorem match_format_exactly_one_block
    prompts (completions : list str) kargs (i : nat) ws1 r s ws2 :
  completions !! i = Some (one_block ws1 r s ws2) ->
  blank ws1 -> blank ws2 -> r <> [] -> s <> [] ->
  match_format_exactly prompts completions kargs !! i = Some (PyFloat 3.0).
Proof.
  intros Hi Hws1 Hws2 Hr Hs.
  rewrite match_format_exactly_map, list_lookup_fmap, Hi. simpl. f_equal.
  apply exact_score_three, search_match_format.
  now apply one_block_occurs.
Qed.

Lemma match_format_exactly_one_block_witness :
  match_format_exactly PyNone
    [lit "no tags";
     one_block (lit " ") (lit "Let me think!") (lit "2") [newline]] ∅ !! 1
  = Some (PyFloat 3.0).
Proof.
  apply (match_format_exactly_one_block PyNone _ ∅ 1
           (lit " ") (lit "Let me think!") (lit "2") [newline]).
  - reflexivity.
  - reflexivity.
  - reflexivity.
  - discriminate.
  - discriminate.
Defined.

(** C6, as stated, fails: in [two_blocks] the pattern matches twice, and
    the bonus is awarded. *)
Lemma match_format_exactly_two_blocks :
  length (finditer match_format two_blocks) = 2 /\
  match_format_exactly PyNone [two_blocks] ∅ = [PyFloat 3.0].
Proof. split; vm_compute; reflexivity. Qed.

(** C6, amended: [match_format_exactly] gives a completion 3.0 if and only
    if the pattern matches in it at least once, that is, if some tagged
    text in it starts a line, up to white space, and ends one; any other
    completion is given the integer 0. *)
Theorem match_format_exactly_iff
    prompts (completions : list str) kargs (i : nat) (c : str) :
  completions !! i = Some c ->
  (match_format_exactly prompts completions kargs !! i = Some (PyFloat 3.0)
   <-> 1 <= length (finditer match_format c)) /\
  (1 <= length (finditer match_format c) <-> format_occurs c) /\
  (match_format_exactly prompts completions kargs !! i = Some (PyFloat 3.0) \/
   match_format_exactly prompts completions kargs !! i = Some (PyInt 0)).
Proof.
  intros Hi.
  rewrite match_format_exactly_map, list_lookup_fmap, Hi. simpl.
  rewrite finditer_nonempty, <- search_match_format.
  split; [|split; [tauto|]].
  - rewrite <- exact_score_three. split; [now intros [= ->] | now intros ->].
  - destruct (exact_score_cases c) as [[_ ->]|[_ ->]]; auto.
Qed.

Lemma match_format_exactly_iff_witness :
  (match_format_exactly PyNone [two_blocks] ∅ !! 0 = Some (PyFloat 3.0)
   <-> 1 <= length (finditer match_format two_blocks)) /\
  (1 <= length (finditer match_format two_blocks)
   <-> format_occurs two_blocks) /\
  (match_format_exactly PyNone [two_blocks] ∅ !! 0 = Some (PyFloat 3.0) \/
   match_format_exactly PyNone [two_blocks] ∅ !! 0 = Some (PyInt 0)).
Proof.
  apply (match_format_exactly_iff PyNone [two_blocks] ∅ 0 two_blocks).
  reflexivity.
Defined.

(** ** The approximate-format reward *)

Lemma count_scan_skip sub s : forall k,
  count_scan sub k s = count_scan sub 0 (drop k s).
Proof.
  induction s as [|c s IH]; intros [|k]; try reflexivity.
  simpl. apply IH.
Qed.

Lemma occurrences_skip a w u rest :
  existsb (chr_eqb a) u = false ->
  occurrences (a :: w) (u ++ rest) = occurrences (a :: w) rest.
Proof.
  induction u as [|b u IH]; [reflexivity|]. cbn [existsb app].
  intros [Hb Hu]%orb_false_iff. cbn [occurrences startswith].
  rewrite Hb. simpl. now apply IH.
Qed.

Lemma count_scan_occurrences a t :
  existsb (chr_eqb a) t = false ->
  forall n s, length s <= n ->
  count_scan (a :: t) 0 s = occurrences (a :: t) s.
Proof.
  intros Ha. induction n as [|n IH]; intros [|c s] Hlen; simpl in Hlen;
    try reflexivity; try lia.
  cbn [count_scan occurrences].
  destruct (startswith (a :: t) (c :: s)) eqn:E.
  - cbn [length]. rewrite Nat.sub_succ, Nat.sub_0_r, count_scan_skip.
    rewrite IH by (rewrite length_drop; lia).
    cbn [startswith] in E. apply andb_true_iff in E as [_ E].
    apply startswith_inv in E. rewrite E at 2.
    now rewrite occurrences_skip.
  - rewrite IH by lia. reflexivity.
Qed.

Lemma count_marker c m : In m markers -> count c m = occurrences m c.
Proof.
  intros Hm.
  assert (H : exists a t, m = a :: t /\ existsb (chr_eqb a) t = false).
  { simpl in Hm. destruct Hm as [<-|[<-|[<-|[<-|[]]]]];
      (eexists; eexists; split; [reflexivity | vm_compute; reflexivity]). }
  destruct H as (a & t & -> & Ha). unfold count.
  now apply (count_scan_occurrences a t Ha (length c)).
Qed.

Lemma marker_score_once c m :
  In m markers ->
  marker_score c m = PyFloat (if once c m then 0.5 else -0.5)%float.
Proof.
  intros Hm. unfold marker_score, once. rewrite (count_marker c m Hm).
  now destruct (occurrences m c =? 1).
Qed.

Lemma approximate_score_sum c : approximate_score c = PyFloat (marker_sum c).
Proof.
  unfold approximate_score, marker_sum, markers.
  rewrite !marker_score_once by (simpl; tauto). cbn [fold_left].
  destruct (once c reasoning_start), (once c reasoning_end),
    (once c solution_start), (once c solution_end); reflexivity.
Qed.

Lemma marker_sum_faults c :
  marker_sum c = float_of_int (2 - Z.of_nat (faults c)).
Proof.
  unfold marker_sum, faults, markers. cbn [fold_left List.filter].
  destruct (once c reasoning_start), (once c reasoning_end),
    (once c solution_start), (once c solution_end); reflexivity.
Qed.

Lemma faults_le c : faults c <= 4.
Proof.
  unfold faults, markers. cbn [List.filter].
  destruct (once c reasoning_start), (once c reasoning_end),
    (once c solution_start), (once c solution_end); simpl; lia.
Qed.

Lemma faults_zero c :
  faults c = 0 <-> forall m, In m markers -> occurrences m c = 1.
Proof.
  unfold faults, markers. split.
  - intros H m Hm. apply Nat.eqb_eq. change (once c m = true).
    cbn [List.filter] in H. simpl in Hm.
    destruct (once c reasoning_start) eqn:E1; [|discriminate].
    destruct (once c reasoning_end) eqn:E2; [|discriminate].
    destruct (once c solution_start) eqn:E3; [|discriminate].
    destruct (once c solution_end) eqn:E4; [|discriminate].
    destruct Hm as [<-|[<-|[<-|[<-|[]]]]]; assumption.
  - intros H. cbn [List.filter]. unfold once.
    rewrite !H by (simpl; tauto). reflexivity.
Qed.

(** C4: the score [match_format_approximately] gives a completion is the
    sum, over the four markers, of +0.5 when the marker occurs exactly once
    in it and -0.5 otherwise; so it is 2 minus the number of markers
    missing or duplicated, strictly smaller when more of them are, at most
    2.0, and 2.0 exactly when each marker occurs exactly once. *)
Theorem match_format_approximately_sum :
  (forall prompts (completions : list str) kargs,
      match_format_approximately prompts completions kargs
      = map (fun c => PyFloat (marker_sum c)) completions) /\
  (forall c, marker_sum c = float_of_int (2 - Z.of_nat (faults c))) /\
  (forall c1 c2, faults c1 < faults c2 ->
                 (marker_sum c2 <? marker_sum c1)%float = true) /\
  (forall c, (marker_sum c <=? 2.0)%float = true) /\
  (forall c, marker_sum c = 2.0%float <->
             forall m, In m markers -> occurrences m c = 1).
Proof.
  split; [|split; [|split; [|split]]].
  - intros prompts completions kargs.
    rewrite match_format_approximately_map. apply map_ext.
    intros c. apply approximate_score_sum.
  - apply marker_sum_faults.
  - intros c1 c2 H. rewrite !marker_sum_faults.
    pose proof (faults_le c1). pose proof (faults_le c2).
    destruct (faults c1) as [|[|[|[|[|?]]]]], (faults c2) as [|[|[|[|[|?]]]]];
      try lia; reflexivity.
  - intros c. rewrite marker_sum_faults. pose proof (faults_le c).
    destruct (faults c) as [|[|[|[|[|?]]]]]; try lia; reflexivity.
  - intros c. rewrite <- faults_zero, marker_sum_faults.
    pose proof (faults_le c).
    destruct (faults c) as [|[|[|[|[|?]]]]]; try lia;
      (split; [|try discriminate; reflexivity]); try reflexivity;
      intros E; apply (f_equal (fun x => (x =? 2.0)%float)) in E;
      vm_compute in E; discriminate.
Qed.

Lemma match_format_approximately_sum_witness :
  (marker_sum (lit "no tags") <? marker_sum answer_2)%float = true /\
  marker_sum answer_2 = 2.0%float.
Proof.
  split.
  - apply (proj1 (proj2 (proj2 match_format_approximately_sum))).
    vm_compute. lia.
  - apply (proj2 (proj2 (proj2 (proj2 match_format_approximately_sum)))).
    intros m Hm. simpl in Hm.
    destruct Hm as [<-|[<-|[<-|[<-|[]]]]]; vm_compute; reflexivity.
Defined.

(** ** The token [match_numbers] extracts *)

Lemma atom_matches_digits_or_dot c :
  atom_matches digits_or_dot c = is_number_char c.
Proof.
  unfold is_number_char. simpl. now rewrite orb_false_r.
Qed.

Lemma span_forallb p s : forallb p (span p s).1 = true.
Proof.
  induction s as [|c s IH]; simpl; [reflexivity|].
  destruct (p c) eqn:E; [|reflexivity].
  destruct (span p s) as [u v]. simpl in *. now rewrite E, IH.
Qed.

(** A greedy repetition whose longest run is accepted by the rest of the
    pattern never backtracks. *)
Lemma max_repeat_greedy {T} a (k : str -> str -> option T) s :
  forall min b,
    let cs := (span (atom_matches a) s).1 in
    let rest := (span (atom_matches a) s).2 in
    (min <= length cs -> is_Some (k (rev cs ++ b) rest) ->
     max_repeat a min b s k = k (rev cs ++ b) rest) /\
    (length cs < min -> max_repeat a min b s k = None).
Proof.
  induction s as [|c s IH]; intros min b; simpl.
  - split; intros H; destruct min; simpl in *; auto; lia.
  - destruct (atom_matches a c) eqn:E.
    + specialize (IH (pred min) (c :: b)).
      destruct (span (atom_matches a) s) as [u v]. simpl in *.
      destruct IH as [IH1 IH2]. rewrite <- app_assoc. split.
      * intros Hlen Hk. change ([c] ++ b) with (c :: b) in *.
        rewrite IH1; [|lia|exact Hk].
        destruct Hk as [r Hr]. now rewrite Hr.
      * intros Hlen. rewrite IH2 by lia. destruct min; [lia | reflexivity].
    + simpl. split; intros H; destruct min; simpl in *; auto; lia.
Qed.

Lemma run_numbers_tail s : forall b g,
  option_map group1 (run numbers_tail (State b s g) Some)
  = option_map Some (first_token s).
Proof.
  unfold numbers_tail. cbn [run ahead behind move group1].
  induction s as [|c s IH]; intros b g.
  - reflexivity.
  - cbn [min_repeat first_token].
    pose proof (max_repeat_greedy digits_or_dot
      (fun b0 s0 => Some (set_group (move (move (State b (c :: s) g) b (c :: s)) b0 s0)
         (consumed (move (State b (c :: s) g) b (c :: s))
                   (move (move (State b (c :: s) g) b (c :: s)) b0 s0))))
      (c :: s) 1 b) as [Hyes Hno].
    cbn [span] in Hyes, Hno. rewrite atom_matches_digits_or_dot in Hyes, Hno.
    destruct (is_number_char c) eqn:E.
    + rewrite Hyes.
      * cbn [option_map group1 set_group]. f_equal. f_equal.
        unfold move. cbn [group1]. rewrite consumed_app.
        cbn [span]. rewrite E.
        replace (span (atom_matches digits_or_dot) s) with (span is_number_char s).
        { destruct (span is_number_char s); reflexivity. }
        clear. induction s as [|c s IH]; simpl; [reflexivity|].
        rewrite orb_false_r. fold (is_number_char c).
        destruct (is_number_char c); [|reflexivity].
        simpl in IH. now rewrite IH.
      * destruct (span (atom_matches digits_or_dot) s); simpl; lia.
      * eauto.
    + cbn [fst length] in Hno. rewrite Hno by lia.
      cbn [atom_matches]. rewrite <- IH with (b := c :: b) (g := g).
      reflexivity.
Qed.

Lemma first_token_drop s : forall n,
  first_token s = None -> first_token (drop n s) = None.
Proof.
  induction s as [|c s IH]; intros [|n] H; try exact H; try reflexivity.
  simpl in H |- *. destruct (is_number_char c); [discriminate|]. now apply IH.
Qed.

Lemma match_at_numbers b a :
  match_at match_numbers b a =
  if startswith solution_start a
  then run numbers_tail
         (State (rev solution_start ++ b) (drop (length solution_start) a) None)
         Some
  else None.
Proof. reflexivity. Qed.

Lemma search_from_numbers a : forall b,
  match search_from match_numbers b a with
  | Some m => m_group1 m
  | None => None
  end = token_after_marker a.
Proof.
  unfold token_after_marker.
  induction a as [|c a IH]; intros b.
  - reflexivity.
  - cbn [search_from find]. rewrite match_at_numbers.
    destruct (startswith solution_start (c :: a)) eqn:E.
    + pose proof (run_numbers_tail (drop (length solution_start) (c :: a))
                    (rev solution_start ++ b) None) as Hrun.
      cbn [plus].
      destruct (run numbers_tail _ Some) as [st|];
        destruct (first_token (drop (length solution_start) (c :: a)))
          as [tok|] eqn:Etok; simpl in Hrun; try discriminate.
      * now injection Hrun as ->.
      * rewrite IH. destruct (find solution_start a) as [j|]; [|reflexivity].
        replace (drop (j + length solution_start) a)
          with (drop (S j) (drop (length solution_start) (c :: a))).
        { now apply first_token_drop. }
        rewrite drop_drop.
        replace (length solution_start + S j)
          with (S (j + length solution_start)) by lia.
        reflexivity.
    + rewrite IH. destruct (find solution_start a) as [j|]; reflexivity.
Qed.

Lemma extract_match_numbers c :
  extract match_numbers c = token_after_marker c.
Proof. unfold extract, search, group. apply search_from_numbers. Qed.

Lemma is_number_char_not_space c : is_number_char c = true -> is_space c = false.
Proof.
  destruct c as [[] [] [] [] [] [] [] []]; vm_compute; congruence.
Qed.

Lemma lstrip_by_head p c s : p c = false -> lstrip_by p (c :: s) = c :: s.
Proof. intros H. simpl. now rewrite H. Qed.

Lemma strip_number_chars tok :
  forallb is_number_char tok = true -> strip tok = tok.
Proof.
  intros H. unfold strip, strip_by, rstrip_by.
  assert (Hl : forall s, forallb is_number_char s = true ->
                         lstrip_by is_space s = s).
  { intros [|c s] Hs; [reflexivity|]. simpl in Hs.
    apply andb_true_iff in Hs as [Hc _].
    apply lstrip_by_head. now apply is_number_char_not_space. }
  rewrite (Hl tok H), Hl, rev_involutive; [reflexivity|].
  rewrite forallb_forall in H |- *. intros x Hx. apply H.
  now apply in_rev.
Qed.

Lemma first_token_chars s tok :
  first_token s = Some tok -> forallb is_number_char tok = true /\ tok <> [].
Proof.
  induction s as [|c s IH]; [discriminate|]. cbn [first_token].
  destruct (is_number_char c) eqn:E; [|exact IH].
  intros [= <-]. split; [apply (span_forallb is_number_char (c :: s))|].
  simpl. rewrite E. destruct (span is_number_char s). discriminate.
Qed.

(** ** The lists of scores *)

Lemma answer_item_string g t :
  is_string t -> answer_item g t = Ok (answer_value g t).
Proof.
  intros Ht. destruct t as [t|]; [|now destruct Ht].
  unfold answer_value. destruct g as [g|]; [|reflexivity].
  unfold answer_item, answer_score. cbn [strip_method bind].
  destruct (py_eq g (Some t)); [reflexivity|].
  destruct (str_eqb (strip g) (strip t)); reflexivity.
Qed.

Lemma check_answer_loop_strings pairs : forall scores,
  Forall (fun p : option str * option str => is_string p.2) pairs ->
  check_answer_loop pairs scores
  = Ok (scores ++ map (fun p => answer_value p.1 p.2) pairs).
Proof.
  induction pairs as [|[g t] pairs IH]; intros scores H; simpl.
  - now rewrite app_nil_r.
  - inversion H as [|? ? Ht Hrest]; subst. simpl in Ht.
    pose proof (answer_item_string g t Ht) as E.
    destruct g as [g|]; simpl in E.
    + rewrite E. cbn [bind]. rewrite IH by assumption.
      now rewrite <- app_assoc.
    + rewrite IH by assumption. now rewrite <- app_assoc.
Qed.

Lemma Forall_zip_snd {A B} (P : B -> Prop) (l : list A) (k : list B) :
  Forall P k -> Forall (fun p : A * B => P p.2) (zip l k).
Proof.
  intros H. revert l. induction H as [|y k Hy Hk IH]; intros [|x l]; simpl;
    constructor; auto.
Qed.

Lemma check_answer_strings prompts completions answer kargs :
  Forall is_string answer ->
  check_answer prompts completions answer kargs
  = Ok (map (fun p => answer_value p.1 p.2)
            (zip (map (extract match_format) completions) answer)).
Proof.
  intros H. unfold check_answer.
  rewrite check_answer_loop_strings; [reflexivity|].
  now apply Forall_zip_snd.
Qed.

Lemma lookup_zip_map {A B C} (f : A -> C) (l : list A) (k : list B) i x y :
  l !! i = Some x -> k !! i = Some y ->
  zip (map f l) k !! i = Some (f x, y).
Proof.
  revert k i. induction l as [|a l IH]; intros [|b k] [|i]; simpl;
    try discriminate.
  - now intros [= ->] [= ->].
  - apply IH.
Qed.

Lemma check_answer_lookup prompts completions answer kargs i c t :
  Forall is_string answer ->
  completions !! i = Some c -> answer !! i = Some t ->
  exists scores,
    check_answer prompts completions answer kargs = Ok scores /\
    scores !! i = Some (answer_value (extract match_format c) t).
Proof.
  intros H Hc Ht. eexists. split; [now apply check_answer_strings|].
  rewrite list_lookup_fmap.
  now rewrite (lookup_zip_map (extract match_format) _ _ _ _ _ Hc Ht).
Qed.

(** What [check_numbers] does, case by case. *)
Lemma check_numbers_cases prompts completions answer kargs :
  check_numbers prompts completions answer kargs =
  match kargs !! "question" with
  | None => Raise KeyError
  | Some q =>
      match getitem0 q with
      | Raise e => Raise e
      | Ok _ =>
          match answer, completions with
          | [], _ | _, [] => Raise IndexError
          | _ :: _, _ :: _ =>
              Ok (map (fun p => number_item p.1 p.2)
                      (zip (map (extract match_numbers) completions) answer))
          end
      end
  end.
Proof.
  unfold check_numbers, getitem_dict.
  destruct (kargs !! "question") as [q|]; [|reflexivity]. cbn [bind].
  destruct (getitem0 q); [|reflexivity]. cbn [bind].
  destruct answer as [|t answer]; [reflexivity|].
  destruct completions as [|c completions]; [reflexivity|].
  cbn [getitem lookup list_lookup bind map].
  now rewrite check_numbers_loop_map.
Qed.

Lemma check_numbers_lookup prompts completions answer kargs scores i c t :
  check_numbers prompts completions answer kargs = Ok scores ->
  completions !! i = Some c -> answer !! i = Some t ->
  scores !! i = Some (number_item (extract match_numbers c) t).
Proof.
  rewrite check_numbers_cases. intros H Hc Ht.
  assert (E : scores = map (fun p => number_item p.1 p.2)
                (zip (map (extract match_numbers) completions) answer)).
  { destruct (kargs !! "question") as [q|]; [|discriminate].
    destruct (getitem0 q); [|discriminate].
    destruct answer; [discriminate|]. destruct completions; [discriminate|].
    congruence. }
  rewrite E, list_lookup_fmap.
  now rewrite (lookup_zip_map (extract match_numbers) _ _ _ _ _ Hc Ht).
Qed.

(** With [question] supplied and [question[0]] readable, [check_numbers]
    returns on every batch that has an index [i], and its score there is
    that of the pair at [i]. *)
Lemma check_numbers_lookup_returns prompts completions answer kargs q i c t :
  kargs !! "question" = Some q -> returns (getitem0 q) ->
  completions !! i = Some c -> answer !! i = Some t ->
  exists scores,
    check_numbers prompts completions answer kargs = Ok scores /\
    scores !! i = Some (number_item (extract match_numbers c) t).
Proof.
  intros Hq [v Hv] Hc Ht. eexists.
  rewrite check_numbers_cases, Hq, Hv.
  destruct answer as [|t0 answer]; [now destruct i|].
  destruct completions as [|c0 completions]; [now destruct i|].
  split; [reflexivity|]. rewrite list_lookup_fmap.
  now rewrite (lookup_zip_map (extract match_numbers) _ _ _ _ _ Hc Ht).
Qed.

(** ** The answer reward *)

Lemma py_eq_string g t : py_eq g (Some t) = str_eqb g t.
Proof. reflexivity. Qed.

(** C3: the answer [check_answer] extracts from a completion is the text
    of a tagged block between its solution markers; when it is string-equal
    to the ground truth, the score is 3.0; when the two differ but are
    equal after [strip], the score is 1.5. *)
Theorem check_answer_equal :
  (forall c g,
      extract match_format c = Some g ->
      exists pre ws1 r mid ws2 post,
        c = pre ++ tagged ws1 r mid g ws2 ++ post /\ g <> []) /\
  (forall prompts (completions : list str) (answer : list (option str)) kargs
          (i : nat) (c t : str),
      Forall is_string answer ->
      completions !! i = Some c -> answer !! i = Some (Some t) ->
      extract match_format c = Some t ->
      exists scores,
        check_answer prompts completions answer kargs = Ok scores /\
        scores !! i = Some (PyFloat 3.0)) /\
  (forall prompts (completions : list str) (answer : list (option str)) kargs
          (i : nat) (c g t : str),
      Forall is_string answer ->
      completions !! i = Some c -> answer !! i = Some (Some t) ->
      extract match_format c = Some g ->
      g <> t -> strip g = strip t ->
      exists scores,
        check_answer prompts completions answer kargs = Ok scores /\
        scores !! i = Some (PyFloat 1.5)).
Proof.
  split; [exact extract_match_format_inv|]. split.
  - intros prompts completions answer kargs i c t H Hc Ht Hg.
    destruct (check_answer_lookup prompts _ _ kargs _ _ _ H Hc Ht)
      as (scores & Hs & Hi).
    exists scores. split; [exact Hs|]. rewrite Hi, Hg.
    unfold answer_value, answer_item, answer_score. rewrite py_eq_string.
    now rewrite (proj2 (str_eqb_eq t t) eq_refl).
  - intros prompts completions answer kargs i c g t H Hc Ht Hg E1 E2.
    destruct (check_answer_lookup prompts _ _ kargs _ _ _ H Hc Ht)
      as (scores & Hs & Hi).
    exists scores. split; [exact Hs|]. rewrite Hi, Hg.
    unfold answer_value, answer_item, answer_score. rewrite py_eq_string.
    cbn [strip_method bind].
    apply str_eqb_neq in E1. apply str_eqb_eq in E2.
    rewrite E1, E2. reflexivity.
Qed.

Lemma check_answer_equal_witness :
  (exists scores,
     check_answer PyNone [answer_7; answer_72] [Some (lit "7"); Some (lit "72")]
       ∅ = Ok scores /\
     scores !! 0 = Some (PyFloat 3.0)) /\
  (exists scores,
     check_answer PyNone [answer_7; answer_72] [Some (lit "7"); Some (lit "72")]
       ∅ = Ok scores /\
     scores !! 1 = Some (PyFloat 1.5)).
Proof.
  split.
  - apply (proj1 (proj2 check_answer_equal) PyNone [answer_7; answer_72]
             [Some (lit "7"); Some (lit "72")] ∅ 0 answer_7 (lit "7")).
    + repeat constructor; discriminate.
    + reflexivity.
    + reflexivity.
    + vm_compute. reflexivity.
  - apply (proj2 (proj2 check_answer_equal) PyNone [answer_7; answer_72]
             [Some (lit "7"); Some (lit "72")] ∅ 1 answer_72
             (lit " 72 ") (lit "72")).
    + repeat constructor; discriminate.
    + reflexivity.
    + reflexivity.
    + vm_compute. reflexivity.
    + discriminate.
    + vm_compute. reflexivity.
Defined.

(** C2, as stated, fails at the edges of the bands. The answer 0.09 is
    within 10% of the ground truth 0.1 and scores 0.25, the quotient of the
    two binary64 values being below 0.9. The answer 1.1000000000000000001
    is more than 10% above the ground truth 1 (and within 20% of it), as a
    decimal and as the binary64 value it is read as, and scores 0.5. *)
Lemma check_answer_band_edges :
  (extract match_format answer_09 = Some (lit "0.09") /\
   within_decimal (1 # 10) (lit "0.09") (lit "0.1") /\
   check_answer PyNone [answer_09] [Some (lit "0.1")] ∅ = Ok [PyFloat 0.25]) /\
  (extract match_format answer_11 = Some (lit "1.1000000000000000001") /\
   ~ within_decimal (1 # 10) (lit "1.1000000000000000001") (lit "1") /\
   ~ within_float (1 # 10) (lit "1.1000000000000000001") (lit "1") /\
   within_decimal (2 # 10) (lit "1.1000000000000000001") (lit "1") /\
   within_float (2 # 10) (lit "1.1000000000000000001") (lit "1") /\
   check_answer PyNone [answer_11] [Some (lit "1")] ∅ = Ok [PyFloat 0.5]).
Proof.
  split; [split; [|split]|split; [|split; [|split; [|split; [|split]]]]].
  - vm_compute. reflexivity.
  - do 2 eexists. split; [vm_compute; reflexivity|].
    split; [vm_compute; reflexivity|]. vm_compute. discriminate.
  - vm_compute. reflexivity.
  - vm_compute. reflexivity.
  - intros (qg & qt & Eg & Et & H). vm_compute in Eg, Et.
    injection Eg as <-. injection Et as <-. vm_compute in H. now apply H.
  - intros (fg & ft & qg & qt & Eg & Et & Eqg & Eqt & H).
    vm_compute in Eg, Et. injection Eg as <-. injection Et as <-.
    vm_compute in Eqg, Eqt. injection Eqg as <-. injection Eqt as <-.
    vm_compute in H. now apply H.
  - do 2 eexists. split; [vm_compute; reflexivity|].
    split; [vm_compute; reflexivity|]. vm_compute. discriminate.
  - do 4 eexists. split; [vm_compute; reflexivity|].
    split; [vm_compute; reflexivity|]. split; [vm_compute; reflexivity|].
    split; [vm_compute; reflexivity|]. vm_compute. discriminate.
  - vm_compute. reflexivity.
Qed.

Lemma answer_value_numeric g t fg ft :
  g <> t -> strip g <> strip t ->
  float_of_str g = Ok fg -> float_of_str t = Ok ft ->
  (ft =? 0)%float = false ->
  answer_value (Some g) (Some t) = band_score (fg / ft).
Proof.
  intros E1%str_eqb_neq E2%str_eqb_neq Hg Ht Hz.
  unfold answer_value, answer_item, answer_score. rewrite py_eq_string, E1.
  cbn [strip_method bind]. rewrite E2.
  cbn [float_of try_except]. rewrite Hg, Ht. cbn [bind].
  unfold truediv. rewrite Hz. cbn [bind]. unfold band_score.
  destruct ((0.9 <=? fg / ft)%float && (fg / ft <=? 1.1)%float); [reflexivity|].
  destruct ((0.8 <=? fg / ft)%float && (fg / ft <=? 1.2)%float); reflexivity.
Qed.

(** C2, amended: for an extracted answer that differs from the ground
    truth, also after [strip], both of which [float] reads, the ground
    truth not as zero, the score follows the binary64 quotient of the two
    values: 0.5 when it lies between the binary64 constants 0.9 and 1.1,
    else 0.25 when it lies between 0.8 and 1.2, else -1.0. *)
Theorem check_answer_bands
    prompts (completions : list str) (answer : list (option str)) kargs
    (i : nat) (c g t : str) (fg ft : float) :
  Forall is_string answer ->
  completions !! i = Some c -> answer !! i = Some (Some t) ->
  extract match_format c = Some g ->
  g <> t -> strip g <> strip t ->
  float_of_str g = Ok fg -> float_of_str t = Ok ft ->
  (ft =? 0)%float = false ->
  exists scores,
    check_answer prompts completions answer kargs = Ok scores /\
    scores !! i = Some (band_score (fg / ft)).
Proof.
  intros H Hc Ht Hg E1 E2 Pg Pt Hz.
  destruct (check_answer_lookup prompts _ _ kargs _ _ _ H Hc Ht)
    as (scores & Hs & Hi).
  exists scores. split; [exact Hs|]. rewrite Hi, Hg. f_equal.
  now apply answer_value_numeric.
Qed.

Lemma check_answer_bands_witness :
  exists scores,
    check_answer PyNone [answer_09] [Some (lit "0.1")] ∅ = Ok scores /\
    scores !! 0 = Some (band_score (0.09 / 0.1)).
Proof.
  apply (check_answer_bands PyNone [answer_09] [Some (lit "0.1")] ∅ 0
           answer_09 (lit "0.09") (lit "0.1") 0.09 0.1).
  - repeat constructor. discriminate.
  - reflexivity.
  - reflexivity.
  - vm_compute. reflexivity.
  - discriminate.
  - vm_compute. discriminate.
  - vm_compute. reflexivity.
  - vm_compute. reflexivity.
  - reflexivity.
Defined.

Lemma ratio_of_raises g t :
  raises (ratio_of g t) <->
  raises (float_of_str g) \/ raises (float_of_str t) \/
  exists fg ft, float_of_str g = Ok fg /\ float_of_str t = Ok ft /\
                (ft =? 0)%float = true.
Proof.
  unfold ratio_of, raises, truediv.
  destruct (float_of_str g) as [fg|e1]; cbn [bind].
  - destruct (float_of_str t) as [ft|e2]; cbn [bind].
    + destruct (ft =? 0)%float eqn:E.
      * split; [|eauto]. intros _. right. right. eauto.
      * split; [intros [? [=]]|].
        intros [[? [=]]|[[? [=]]|(? & ? & [= <-] & [= <-] & ?)]]. congruence.
    + split; eauto.
  - split; eauto.
Qed.

Lemma answer_value_raises g t :
  g <> t -> strip g <> strip t -> raises (ratio_of g t) ->
  answer_value (Some g) (Some t) = PyFloat (-0.5).
Proof.
  intros E1%str_eqb_neq E2%str_eqb_neq [e He].
  unfold answer_value, answer_item, answer_score. rewrite py_eq_string, E1.
  cbn [strip_method bind]. rewrite E2. cbn [float_of try_except].
  unfold ratio_of in He.
  destruct (float_of_str g) as [fg|]; cbn [bind] in *; [|reflexivity].
  destruct (float_of_str t) as [ft|]; cbn [bind] in *; [|reflexivity].
  rewrite He. reflexivity.
Qed.

Lemma number_score_cases guess true_answer :
  number_score guess true_answer =
  match numbers_of guess true_answer with
  | Ok (g, t) => if (g =? t)%float then PyFloat 1.5 else PyFloat 0.0
  | Raise _ => PyInt 0
  end.
Proof.
  unfold number_score, numbers_of.
  destruct (strip_method true_answer) as [s|]; cbn [bind]; [|reflexivity].
  destruct (float_of_str s) as [t|]; cbn [bind]; [|reflexivity].
  destruct (float_of_str (strip guess)) as [g|]; reflexivity.
Qed.

Lemma numbers_of_raises tok t :
  raises (numbers_of tok t) <->
  raises (let* stripped := strip_method t in float_of_str stripped) \/
  raises (float_of_str (strip tok)).
Proof.
  unfold numbers_of, raises.
  destruct (strip_method t) as [s|e1]; cbn [bind]; [|split; eauto].
  destruct (float_of_str s) as [ft|e2]; cbn [bind]; [|split; eauto].
  destruct (float_of_str (strip tok)) as [fg|e3]; cbn [bind].
  - split; [intros [? [=]] | intros [[? [=]]|[? [=]]]].
  - split; eauto.
Qed.

(** C5: a failure to read a number raises nothing. In [check_answer], with
    ground truths that are strings, when the extracted answer differs from
    the ground truth, also after [strip], and [float] fails on either of
    them or the ground truth is zero, the call returns and the score is
    -0.5. In [check_numbers], with [question] supplied and [question[0]]
    readable, when [float] fails on the stripped ground truth or on the
    stripped token, the call returns and the score is the integer 0. *)
Theorem parse_failure_scores :
  (forall prompts (completions : list str) (answer : list (option str)) kargs
          (i : nat) (c g t : str),
      Forall is_string answer ->
      completions !! i = Some c -> answer !! i = Some (Some t) ->
      extract match_format c = Some g -> g <> t -> strip g <> strip t ->
      raises (float_of_str g) \/ raises (float_of_str t) \/
      (exists fg ft, float_of_str g = Ok fg /\ float_of_str t = Ok ft /\
                     (ft =? 0)%float = true) ->
      exists scores,
        check_answer prompts completions answer kargs = Ok scores /\
        scores !! i = Some (PyFloat (-0.5))) /\
  (forall prompts (completions : list str) (answer : list (option str)) kargs
          (q : pyval) (i : nat) (c tok : str) (t : option str),
      kargs !! "question" = Some q -> returns (getitem0 q) ->
      completions !! i = Some c -> answer !! i = Some t ->
      extract match_numbers c = Some tok ->
      raises (let* stripped := strip_method t in float_of_str stripped) \/
      raises (float_of_str (strip tok)) ->
      exists scores,
        check_numbers prompts completions answer kargs = Ok scores /\
        scores !! i = Some (PyInt 0)).
Proof.
  split.
  - intros prompts completions answer kargs i c g t H Hc Ht Hg E1 E2 Hfail.
    destruct (check_answer_lookup prompts _ _ kargs _ _ _ H Hc Ht)
      as (scores & Hs & Hi).
    exists scores. split; [exact Hs|]. rewrite Hi, Hg. f_equal.
    apply answer_value_raises; [exact E1 | exact E2|].
    now apply ratio_of_raises.
  - intros prompts completions answer kargs q i c tok t Hq Hv Hc Ht Htok
           Hfail.
    apply numbers_of_raises in Hfail as [e He].
    destruct (check_numbers_lookup_returns prompts _ _ _ _ _ _ _ Hq Hv Hc Ht)
      as (scores & Hs & Hi).
    exists scores. split; [exact Hs|]. rewrite Hi, Htok.
    cbn [number_item]. now rewrite number_score_cases, He.
Qed.

Lemma parse_failure_scores_witness :
  (exists scores,
     check_answer PyNone [answer_152; answer_7] [Some (lit "3"); Some (lit "0")]
       ∅ = Ok scores /\
     scores !! 1 = Some (PyFloat (-0.5))) /\
  (exists scores,
     check_numbers PyNone [answer_152; answer_7] [Some (lit "3"); Some (lit "0")]
       question_kargs = Ok scores /\
     scores !! 0 = Some (PyInt 0)).
Proof.
  split.
  - apply (proj1 parse_failure_scores PyNone [answer_152; answer_7]
             [Some (lit "3"); Some (lit "0")] ∅ 1 answer_7 (lit "7") (lit "0")).
    + repeat constructor; discriminate.
    + reflexivity.
    + reflexivity.
    + vm_compute. reflexivity.
    + discriminate.
    + vm_compute. discriminate.
    + right. right. exists 7%float, 0%float.
      split; [vm_compute; reflexivity|]. split; vm_compute; reflexivity.
  - apply (proj2 parse_failure_scores PyNone [answer_152; answer_7]
             [Some (lit "3"); Some (lit "0")] question_kargs
             (PyList [PyStr (lit "How many?")]) 0 answer_152
             (lit "1.5.2") (Some (lit "3"))).
    + vm_compute. reflexivity.
    + eexists. reflexivity.
    + reflexivity.
    + reflexivity.
    + vm_compute. reflexivity.
    + right. exists ValueError. vm_compute. reflexivity.
Defined.

Lemma token_after_marker_chars c tok :
  token_after_marker c = Some tok ->
  forallb is_number_char tok = true /\ tok <> [].
Proof.
  unfold token_after_marker. destruct (find solution_start c); [|discriminate].
  apply first_token_chars.
Qed.

(** C7: [check_numbers] extracts from a completion the first maximal run
    of digits and dots after its first solution-start marker. With
    [question] supplied and [question[0]] readable, the call returns, and
    when [float] reads that token and the stripped ground truth, the score
    is 1.5 if the two binary64 values are equal and 0.0 if not; when there
    is no marker, or no digit or dot after it, the score is the
    integer 0. *)
Theorem check_numbers_token :
  (forall c, extract match_numbers c = token_after_marker c) /\
  (forall prompts (completions : list str) (answer : list (option str)) kargs
          (q : pyval) (i : nat) (c tok t : str) (fg ft : float),
      kargs !! "question" = Some q -> returns (getitem0 q) ->
      completions !! i = Some c -> answer !! i = Some (Some t) ->
      token_after_marker c = Some tok ->
      float_of_str tok = Ok fg -> float_of_str (strip t) = Ok ft ->
      exists scores,
        check_numbers prompts completions answer kargs = Ok scores /\
        scores !! i
        = Some (if (fg =? ft)%float then PyFloat 1.5 else PyFloat 0.0)) /\
  (forall prompts (completions : list str) (answer : list (option str)) kargs
          (q : pyval) (i : nat) (c : str) (t : option str),
      kargs !! "question" = Some q -> returns (getitem0 q) ->
      completions !! i = Some c -> answer !! i = Some t ->
      token_after_marker c = None ->
      exists scores,
        check_numbers prompts completions answer kargs = Ok scores /\
        scores !! i = Some (PyInt 0)).
Proof.
  split; [exact extract_match_numbers|]. split.
  - intros prompts completions answer kargs q i c tok t fg ft
           Hq Hv Hc Ht Htok Hg Hf.
    destruct (check_numbers_lookup_returns prompts _ _ _ _ _ _ _ Hq Hv Hc Ht)
      as (scores & Hs & Hi).
    exists scores. split; [exact Hs|]. rewrite Hi.
    rewrite extract_match_numbers, Htok. cbn [number_item].
    rewrite number_score_cases. unfold numbers_of. cbn [strip_method bind].
    rewrite Hf. cbn [bind].
    apply token_after_marker_chars in Htok as [Hall _].
    rewrite (strip_number_chars tok Hall), Hg. reflexivity.
  - intros prompts completions answer kargs q i c t Hq Hv Hc Ht Htok.
    destruct (check_numbers_lookup_returns prompts _ _ _ _ _ _ _ Hq Hv Hc Ht)
      as (scores & Hs & Hi).
    exists scores. split; [exact Hs|]. rewrite Hi.
    rewrite extract_match_numbers, Htok. reflexivity.
Qed.

Lemma check_numbers_token_witness :
  extract match_numbers answer_words = token_after_marker answer_words /\
  (exists scores,
     check_numbers PyNone [answer_words; lit "<SOLUTION>none"]
       [Some (lit " 0.340 "); Some (lit "1")] question_kargs = Ok scores /\
     scores !! 0
     = Some (if (0.34 =? 0.34)%float then PyFloat 1.5 else PyFloat 0.0)) /\
  (exists scores,
     check_numbers PyNone [answer_words; lit "<SOLUTION>none"]
       [Some (lit " 0.340 "); Some (lit "1")] question_kargs = Ok scores /\
     scores !! 1 = Some (PyInt 0)).
Proof.
  split; [|split].
  - apply (proj1 check_numbers_token answer_words).
  - apply (proj1 (proj2 check_numbers_token) PyNone
             [answer_words; lit "<SOLUTION>none"]
             [Some (lit " 0.340 "); Some (lit "1")] question_kargs
             (PyList [PyStr (lit "How many?")]) 0 answer_words (lit "0.34")
             (lit " 0.340 ") 0.34%float 0.34%float).
    + vm_compute. reflexivity.
    + eexists. reflexivity.
    + reflexivity.
    + reflexivity.
    + vm_compute. reflexivity.
    + vm_compute. reflexivity.
    + vm_compute. reflexivity.
  - apply (proj2 (proj2 check_numbers_token) PyNone
             [answer_words; lit "<SOLUTION>none"]
             [Some (lit " 0.340 "); Some (lit "1")] question_kargs
             (PyList [PyStr (lit "How many?")]) 1 (lit "<SOLUTION>none")
             (Some (lit "1"))).
    + vm_compute. reflexivity.
    + eexists. reflexivity.
    + reflexivity.
    + reflexivity.
    + vm_compute. reflexivity.
Defined.

(** ** Ground truths that are not strings *)

Lemma extract_hash_answer_none text :
  contains (lit "####") text = false -> extract_hash_answer text = Ok None.
Proof. intros H. unfold extract_hash_answer. now rewrite H. Qed.

(** C8: [check_answer] raises nothing when every ground truth is a string;
    [extract_hash_answer] returns [None] for a text without [####]; and
    with such a ground truth and a completion that holds a tagged block,
    whose extracted answer differs from it, [check_answer] raises the
    [AttributeError] of [None.strip()]. *)
Theorem check_answer_total_on_strings :
  (forall prompts completions answer kargs,
      Forall is_string answer ->
      returns (check_answer prompts completions answer kargs)) /\
  (forall text,
      contains (lit "####") text = false ->
      extract_hash_answer text = Ok None) /\
  (extract_hash_answer (lit "The answer is 2.") = Ok None /\
   extract match_format answer_2 = Some (lit "2") /\
   check_answer PyNone [answer_2] [None] ∅ = Raise AttributeError).
Proof.
  split; [|split; [exact extract_hash_answer_none|]].
  - intros prompts completions answer kargs H. eexists.
    now apply check_answer_strings.
  - repeat split; vm_compute; reflexivity.
Qed.

Lemma check_answer_total_on_strings_witness :
  returns (check_answer PyNone [answer_2; lit "no tags"]
             [Some (lit "2"); Some (lit "3")] ∅) /\
  extract_hash_answer (lit "The answer is 2.") = Ok None.
Proof.
  split.
  - apply (proj1 check_answer_total_on_strings).
    repeat constructor; discriminate.
  - apply (proj1 (proj2 check_answer_total_on_strings)).
    vm_compute. reflexivity.
Defined.

(** ** One score per completion *)

Lemma map_zip_map {A B C D} (e : A -> C) (f : C -> B -> D) l : forall k,
  map (fun p => f p.1 p.2) (zip (map e l) k)
  = zip_with (fun x y => f (e x) y) l k.
Proof.
  induction l as [|x l IH]; intros [|y k]; simpl; try reflexivity.
  now rewrite IH.
Qed.

Lemma length_zip_with_same {A B C} (f : A -> B -> C) l k :
  length k = length l -> length (zip_with f l k) = length l.
Proof.
  revert k. induction l as [|x l IH]; intros [|y k]; simpl; try lia.
  intros [= H]. now rewrite IH.
Qed.

(** C9, as stated, fails for [check_numbers] on the empty batch: with a
    [question] supplied, it raises [IndexError] at [answer[0]]. *)
Lemma check_numbers_empty_batch :
  question_kargs !! "question" = Some (PyList [PyStr (lit "How many?")]) /\
  check_numbers PyNone [] [] question_kargs = Raise IndexError.
Proof. split; vm_compute; reflexivity. Qed.

(** C9, amended: each reward function returns one score per completion, in
    order, the score at a place being a function of the completion (and the
    ground truth) at that place: [match_format_exactly] and
    [match_format_approximately] always; [check_answer] when there are as
    many ground truths, all strings; [check_numbers] when there are as many
    ground truths, the batch is not empty and [question[0]] can be read. *)
Theorem scores_pointwise :
  (forall prompts completions kargs,
      match_format_exactly prompts completions kargs
      = map exact_score completions /\
      length (match_format_exactly prompts completions kargs)
      = length completions) /\
  (forall prompts completions kargs,
      match_format_approximately prompts completions kargs
      = map approximate_score completions /\
      length (match_format_approximately prompts completions kargs)
      = length completions) /\
  (forall prompts completions answer kargs,
      length answer = length completions -> Forall is_string answer ->
      exists scores,
        check_answer prompts completions answer kargs = Ok scores /\
        scores = zip_with answer_of completions answer /\
        length scores = length completions) /\
  (forall prompts completions answer kargs q,
      length answer = length completions -> completions <> [] ->
      kargs !! "question" = Some q -> returns (getitem0 q) ->
      exists scores,
        check_numbers prompts completions answer kargs = Ok scores /\
        scores = zip_with number_of completions answer /\
        length scores = length completions).
Proof.
  split; [|split; [|split]].
  - intros. rewrite match_format_exactly_map. split; [reflexivity|].
    apply length_map.
  - intros. rewrite match_format_approximately_map. split; [reflexivity|].
    apply length_map.
  - intros prompts completions answer kargs Hlen H. eexists.
    split; [now apply check_answer_strings|].
    rewrite map_zip_map. split; [reflexivity|].
    now apply length_zip_with_same.
  - intros prompts completions answer kargs q Hlen Hne Hq [v Hv]. eexists.
    rewrite check_numbers_cases, Hq, Hv.
    destruct completions as [|c completions]; [congruence|].
    destruct answer as [|t answer]; [discriminate|].
    split; [reflexivity|]. rewrite map_zip_map. split; [reflexivity|].
    now apply length_zip_with_same.
Qed.

Lemma scores_pointwise_witness :
  (exists scores,
     check_answer PyNone [answer_2; answer_7] [Some (lit "2"); Some (lit "8")]
       ∅ = Ok scores /\
     scores = zip_with answer_of [answer_2; answer_7]
                [Some (lit "2"); Some (lit "8")] /\
     length scores = 2) /\
  (exists scores,
     check_numbers PyNone [answer_2; answer_7] [Some (lit "2"); None]
       question_kargs = Ok scores /\
     scores = zip_with number_of [answer_2; answer_7] [Some (lit "2"); None] /\
     length scores = 2).
Proof.
  split.
  - apply (proj1 (proj2 (proj2 scores_pointwise)) PyNone [answer_2; answer_7]
             [Some (lit "2"); Some (lit "8")] ∅).
    + reflexivity.
    + repeat constructor; discriminate.
  - apply (proj2 (proj2 (proj2 scores_pointwise)) PyNone [answer_2; answer_7]
             [Some (lit "2"); None] question_kargs
             (PyList [PyStr (lit "How many?")])).
    + reflexivity.
    + discriminate.
    + vm_compute. reflexivity.
    + eexists. reflexivity.
Defined.

(** ** The arguments the scores do not depend on *)

(** C10, as stated, fails for [check_numbers]: two calls that agree on the
    completions and the ground truths and both supply [question] differ,
    one raising [IndexError] at [question[0]], the other returning. *)
Lemma check_numbers_question_value :
  let kargs1 : gmap string pyval := {[ "question" := PyList [] ]} in
  let kargs2 : gmap string pyval := question_kargs in
  is_Some (kargs1 !! "question") /\ is_Some (kargs2 !! "question") /\
  check_numbers PyNone [answer_2] [Some (lit "2")] kargs1 = Raise IndexError /\
  check_numbers PyNone [answer_2] [Some (lit "2")] kargs2 = Ok [PyFloat 1.5].
Proof.
  cbv zeta. repeat split; try (eexists; vm_compute; reflexivity);
    vm_compute; reflexivity.
Qed.

(** C10, amended: two calls that agree on the completions (and the ground
    truths) give the same result whatever their [prompts] and keyword
    arguments, for [match_format_exactly], [match_format_approximately] and
    [check_answer]; for [check_numbers] too when both supply a [question]
    whose first element can be read; without a [question], [check_numbers]
    raises [KeyError]. *)
Theorem scores_ignore_prompts_and_kargs :
  (forall prompts1 prompts2 kargs1 kargs2 completions,
      match_format_exactly prompts1 completions kargs1
      = match_format_exactly prompts2 completions kargs2) /\
  (forall prompts1 prompts2 kargs1 kargs2 completions,
      match_format_approximately prompts1 completions kargs1
      = match_format_approximately prompts2 completions kargs2) /\
  (forall prompts1 prompts2 kargs1 kargs2 completions answer,
      check_answer prompts1 completions answer kargs1
      = check_answer prompts2 completions answer kargs2) /\
  (forall prompts1 prompts2 kargs1 kargs2 completions answer q1 q2,
      kargs1 !! "question" = Some q1 -> kargs2 !! "question" = Some q2 ->
      returns (getitem0 q1) -> returns (getitem0 q2) ->
      check_numbers prompts1 completions answer kargs1
      = check_numbers prompts2 completions answer kargs2) /\
  (forall prompts completions answer kargs,
      kargs !! "question" = None ->
      check_numbers prompts completions answer kargs = Raise KeyError).
Proof.
  split; [|split; [|split; [|split]]].
  - intros. now rewrite !match_format_exactly_map.
  - intros. now rewrite !match_format_approximately_map.
  - reflexivity.
  - intros prompts1 prompts2 kargs1 kargs2 completions answer q1 q2
           H1 H2 [v1 Hv1] [v2 Hv2].
    now rewrite !check_numbers_cases, H1, H2, Hv1, Hv2.
  - intros prompts completions answer kargs H.
    now rewrite check_numbers_cases, H.
Qed.

Lemma scores_ignore_prompts_and_kargs_witness :
  check_numbers PyNone [answer_2] [Some (lit "2")] question_kargs
  = check_numbers (PyList [PyStr (lit "prompt")]) [answer_2] [Some (lit "2")]
      (<["seed" := PyNone]> {[ "question" := PyStr (lit "How many?") ]}) /\
  check_numbers PyNone [answer_2] [Some (lit "2")] ∅ = Raise KeyError.
Proof.
  split.
  - apply (proj1 (proj2 (proj2 (proj2 scores_ignore_prompts_and_kargs)))
             PyNone (PyList [PyStr (lit "prompt")]) question_kargs
             (<["seed" := PyNone]> {[ "question" := PyStr (lit "How many?") ]})
             [answer_2] [Some (lit "2")]
             (PyList [PyStr (lit "How many?")]) (PyStr (lit "How many?"))).
    + vm_compute. reflexivity.
    + vm_compute. reflexivity.
    + eexists. reflexivity.
    + eexists. reflexivity.
  - apply (proj2 (proj2 (proj2 (proj2 scores_ignore_prompts_and_kargs)))).
    reflexivity.
Defined.

(** * Further properties *)

(** ** Ground truths of the dataset *)

Lemma contains_find sub s : contains sub s = true <-> is_Some (find sub s).
Proof.
  induction s as [|c s IH]; simpl.
  - rewrite orb_false_r. destruct (startswith sub []); split; eauto;
      try discriminate. intros [? [=]].
  - destruct (startswith sub (c :: s)); simpl; [split; eauto|].
    rewrite IH. destruct (find sub s); simpl; split; eauto;
      intros [? [=]].
Qed.

Lemma contains_false_find sub s : contains sub s = false <-> find sub s = None.
Proof.
  pose proof (contains_find sub s) as H.
  destruct (contains sub s), (find sub s) as [i|]; split; try congruence.
  - intros _. destruct (proj1 H eq_refl) as [? [=]].
  - intros _. assert (E : true = false) by (symmetry; apply H; eauto).
    discriminate.
Qed.

Lemma split_scan_skip sep s : forall k cur,
  split_scan sep k cur s = split_scan sep 0 cur (drop k s).
Proof.
  induction s as [|c s IH]; intros [|k] cur; try reflexivity.
  simpl. apply IH.
Qed.

Lemma split_scan_none sep s : forall cur,
  find sep s = None -> split_scan sep 0 cur s = [rev cur ++ s].
Proof.
  induction s as [|c s IH]; intros cur; simpl.
  - now rewrite app_nil_r.
  - destruct (startswith sep (c :: s)); [discriminate|].
    destruct (find sep s) eqn:E; [discriminate|]. intros _.
    rewrite IH by reflexivity. simpl. now rewrite <- app_assoc.
Qed.

Lemma split_scan_some sep s : forall cur i,
  sep <> [] -> find sep s = Some i ->
  split_scan sep 0 cur s
  = (rev cur ++ take i s) :: split_scan sep 0 [] (drop (i + length sep) s).
Proof.
  intros cur i Hsep. revert cur i.
  induction s as [|c s IH]; intros cur i; simpl.
  - destruct sep; [congruence | discriminate].
  - destruct (startswith sep (c :: s)) eqn:E.
    + intros [= <-]. rewrite app_nil_r, split_scan_skip. do 2 f_equal.
      destruct sep as [|a sep]; [congruence|]. simpl.
      now rewrite Nat.sub_0_r.
    + destruct (find sep s) as [j|] eqn:Ej; [|discriminate].
      intros [= <-]. rewrite (IH _ j eq_refl). simpl.
      now rewrite <- app_assoc.
Qed.

(** The piece at index 1 of [text.split(sep)]. *)
Lemma split_second sep text rest :
  sep <> [] -> after sep text = Some rest ->
  split text sep !! 1 = Some (before sep rest).
Proof.
  unfold after, before, split. intros Hsep.
  destruct (find sep text) as [i|] eqn:E; [|discriminate]. intros [= <-].
  rewrite (split_scan_some sep text [] i Hsep E). simpl.
  destruct (find sep (drop (i + length sep) text)) as [j|] eqn:Ej.
  - now rewrite (split_scan_some sep _ [] j Hsep Ej).
  - now rewrite (split_scan_none sep _ [] Ej).
Qed.

Lemma extract_hash_answer_spec text :
  extract_hash_answer text
  = Ok (option_map (fun rest => strip (before hashes rest)) (after hashes text)).
Proof.
  unfold extract_hash_answer. fold hashes.
  destruct (contains hashes text) eqn:E; simpl.
  - apply contains_find in E as [i Hi].
    assert (Ha : after hashes text = Some (drop (i + length hashes) text)).
    { unfold after. now rewrite Hi. }
    rewrite Ha. unfold getitem.
    rewrite (split_second hashes text _ ltac:(discriminate) Ha). reflexivity.
  - apply contains_false_find in E. unfold after. now rewrite E.
Qed.

(** *** [strip] *)

Lemma lstrip_by_head_false p s :
  match lstrip_by p s with
  | [] => True
  | c :: _ => p c = false
  end.
Proof.
  induction s as [|c s IH]; simpl; [exact I|].
  destruct (p c) eqn:E; [exact IH | exact E].
Qed.

Lemma lstrip_by_suffix p s : exists u, s = u ++ lstrip_by p s.
Proof.
  induction s as [|c s [u IH]]; simpl; [now exists []|].
  destruct (p c); [|now exists []].
  exists (c :: u). simpl. now f_equal.
Qed.

Lemma lstrip_by_fixed p s :
  match s with [] => True | c :: _ => p c = false end -> lstrip_by p s = s.
Proof. destruct s as [|c s]; simpl; [reflexivity|]. now intros ->. Qed.

Lemma rstrip_by_prefix p s : exists w, s = rstrip_by p s ++ w.
Proof.
  unfold rstrip_by. destruct (lstrip_by_suffix p (rev s)) as [u Hu].
  exists (rev u). rewrite <- rev_app_distr, <- Hu. now rewrite rev_involutive.
Qed.

Lemma strip_stripped s : stripped (strip s).
Proof.
  unfold stripped, strip, strip_by. split.
  - pose proof (lstrip_by_head_false is_space s) as H.
    destruct (rstrip_by_prefix is_space (lstrip_by is_space s)) as [w Hw].
    destruct (rstrip_by is_space (lstrip_by is_space s)) as [|c r]; [exact I|].
    rewrite Hw in H. exact H.
  - unfold rstrip_by. rewrite rev_involutive.
    apply lstrip_by_head_false.
Qed.

Lemma stripped_strip s : stripped s -> strip s = s.
Proof.
  intros [H1 H2]. unfold strip, strip_by, rstrip_by.
  rewrite (lstrip_by_fixed is_space s H1).
  rewrite (lstrip_by_fixed is_space (rev s) H2). apply rev_involutive.
Qed.

Lemma strip_idempotent s : strip (strip s) = strip s.
Proof. apply stripped_strip, strip_stripped. Qed.

(** ** Blocks whose texts hold no marker *)

Lemma lts_app u v : lts (u ++ v) = lts u + lts v.
Proof. unfold lts. rewrite List.filter_app. apply length_app. Qed.

Lemma lts_cons c s : lts (c :: s) = (if chr_eqb tag_open c then 1 else 0) + lts s.
Proof.
  unfold lts. cbn [List.filter]. now destruct (chr_eqb tag_open c).
Qed.

Lemma tag_free_lts s : tag_free s <-> lts s = 0.
Proof.
  unfold tag_free. induction s as [|c s IH]; [easy|].
  rewrite lts_cons. cbn [existsb].
  destruct (chr_eqb tag_open c); cbn [orb]; [split; [discriminate | lia]|].
  exact IH.
Qed.

Lemma tag_free_app u v : tag_free (u ++ v) <-> tag_free u /\ tag_free v.
Proof. rewrite !tag_free_lts, lts_app. lia. Qed.

Lemma blank_tag_free ws : blank ws -> tag_free ws.
Proof.
  unfold blank, tag_free. induction ws as [|c ws IH]; [easy|].
  cbn [forallb existsb].
  intros [Hc Hws]%andb_true_iff. rewrite (IH Hws), orb_false_r.
  destruct (chr_eqb tag_open c) eqn:E; [|reflexivity].
  apply chr_eqb_eq in E. subst c. vm_compute in Hc. discriminate.
Qed.

Lemma marker_shape m :
  In m markers -> exists t, m = tag_open :: t /\ tag_free t.
Proof.
  simpl. intros [<-|[<-|[<-|[<-|[]]]]];
    (eexists; split; [reflexivity | vm_compute; reflexivity]).
Qed.

Lemma lts_marker m : In m markers -> lts m = 1.
Proof.
  simpl. intros [<-|[<-|[<-|[<-|[]]]]]; vm_compute; reflexivity.
Qed.

Lemma split_at_lt u : forall u' x x',
  tag_free u -> tag_free u' ->
  u ++ tag_open :: x = u' ++ tag_open :: x' -> u = u' /\ x = x'.
Proof.
  unfold tag_free.
  induction u as [|c u IH]; intros [|c' u'] x x' Hu Hu';
    cbn [existsb app] in *.
  - now intros [= ->].
  - intros [= <- _]. apply orb_false_iff in Hu' as [Hc _].
    now rewrite (proj2 (chr_eqb_eq tag_open tag_open) eq_refl) in Hc.
  - intros [= -> _]. apply orb_false_iff in Hu as [Hc _].
    now rewrite (proj2 (chr_eqb_eq tag_open tag_open) eq_refl) in Hc.
  - intros [= -> H]. apply orb_false_iff in Hu as [_ Hu].
    apply orb_false_iff in Hu' as [_ Hu'].
    destruct (IH _ _ _ Hu Hu' H) as [-> ->]. auto.
Qed.

Lemma split_at_marker m u u' x x' :
  In m markers -> tag_free u -> tag_free u' ->
  u ++ m ++ x = u' ++ m ++ x' -> u = u' /\ x = x'.
Proof.
  intros Hm Hu Hu' H. destruct (marker_shape m Hm) as (t & -> & _).
  simpl in H. apply split_at_lt in H as [-> H]; [|assumption..].
  split; [reflexivity|]. now apply app_inv_head in H.
Qed.

(** A tagged text inside a block with tag-free texts is the block itself. *)
Lemma tagged_in_one_block pre ws1' r' mid' g ws2' post ws1 r s ws2 :
  blank ws1 -> blank ws2 -> tag_free r -> tag_free s ->
  pre ++ tagged ws1' r' mid' g ws2' ++ post = one_block ws1 r s ws2 ->
  g = s.
Proof.
  intros Hws1%blank_tag_free Hws2%blank_tag_free Hr Hs H.
  assert (Hrs : In reasoning_start markers) by (simpl; tauto).
  assert (Hre : In reasoning_end markers) by (simpl; tauto).
  assert (Hss : In solution_start markers) by (simpl; tauto).
  assert (Hse : In solution_end markers) by (simpl; tauto).
  pose proof (f_equal lts H) as Hn. unfold tagged, one_block in Hn.
  rewrite !lts_app, (lts_marker _ Hrs), (lts_marker _ Hre),
    (lts_marker _ Hss), (lts_marker _ Hse) in Hn.
  apply tag_free_lts in Hws1, Hws2, Hr, Hs.
  assert (Hpre : tag_free (pre ++ ws1')).
  { apply tag_free_lts. rewrite lts_app. lia. }
  assert (Hr' : tag_free r') by (apply tag_free_lts; lia).
  assert (Hmid : tag_free mid') by (apply tag_free_lts; lia).
  assert (Hg : tag_free g) by (apply tag_free_lts; lia).
  apply tag_free_lts in Hws1, Hr, Hs.
  unfold tagged, one_block in H. rewrite <- !app_assoc in H.
  rewrite (app_assoc pre ws1') in H.
  apply (split_at_marker _ _ _ _ _ Hrs Hpre Hws1) in H as [_ H].
  apply (split_at_marker _ _ _ _ _ Hre Hr' Hr) in H as [_ H].
  change (mid' ++ solution_start ++ g ++ solution_end ++ ws2' ++ post
          = [] ++ solution_start ++ s ++ solution_end ++ ws2) in H.
  apply (split_at_marker _ _ [] _ _ Hss Hmid eq_refl) in H as [_ H].
  now apply (split_at_marker _ _ _ _ _ Hse Hg Hs) in H as [H _].
Qed.

Lemma search_match_format_group c m :
  search match_format c = Some m ->
  exists pre ws1 r mid g ws2 post,
    c = pre ++ tagged ws1 r mid g ws2 ++ post /\ m_group1 m = Some g.
Proof.
  unfold search. intros E.
  apply search_from_inv in E as (pre & rest & st & -> & H & Hm).
  unfold match_at in H. apply run_sound in H as (st' & Hd & [= ->]).
  apply denotes_match_format in Hd
    as (ws1 & r & mid & s & ws2 & post & -> & _ & _ & _ & _ & _ & _ & ->).
  exists pre, ws1, r, mid, s, ws2, post. auto.
Qed.

Lemma extract_none_search c :
  extract match_format c = None <-> search match_format c = None.
Proof.
  unfold extract, group. destruct (search match_format c) as [m|] eqn:E;
    [|tauto].
  apply search_match_format_group in E as (? & ? & ? & ? & g & ? & ? & _ & ->).
  split; discriminate.
Qed.

Lemma extract_one_block ws1 r s ws2 :
  blank ws1 -> blank ws2 -> r <> [] -> s <> [] -> tag_free r -> tag_free s ->
  extract match_format (one_block ws1 r s ws2) = Some s.
Proof.
  intros Hws1 Hws2 Hr Hs Fr Fs.
  destruct (proj2 (search_match_format (one_block ws1 r s ws2))
              (one_block_occurs ws1 r s ws2 Hws1 Hws2 Hr Hs)) as [m Hm].
  unfold extract, group. rewrite Hm.
  apply search_match_format_group in Hm
    as (pre & ws1' & r' & mid' & g & ws2' & post & E & ->).
  f_equal. symmetry in E.
  now apply (tagged_in_one_block _ _ _ _ _ _ _ _ _ _ _ Hws1 Hws2 Fr Fs E).
Qed.

(** *** Markers in such a block *)

Lemma startswith_marker m m' x :
  In m markers -> In m' markers -> startswith m (m' ++ x) = str_eqb m m'.
Proof.
  simpl. intros [<-|[<-|[<-|[<-|[]]]]] [<-|[<-|[<-|[<-|[]]]]]; reflexivity.
Qed.

Lemma occurrences_nil m : In m markers -> occurrences m [] = 0.
Proof.
  intros Hm. destruct (marker_shape m Hm) as (t & -> & _). reflexivity.
Qed.

Lemma occurrences_tag_free m u rest :
  In m markers -> tag_free u -> occurrences m (u ++ rest) = occurrences m rest.
Proof.
  intros Hm Hu. destruct (marker_shape m Hm) as (t & -> & _).
  now apply occurrences_skip.
Qed.

Lemma occurrences_marker m m' u rest :
  In m markers -> In m' markers -> tag_free u ->
  occurrences m (m' ++ u ++ rest)
  = (if str_eqb m m' then 1 else 0) + occurrences m rest.
Proof.
  intros Hm Hm' Hu. rewrite <- (startswith_marker m m' (u ++ rest) Hm Hm').
  destruct (marker_shape m' Hm') as (t' & -> & Ht').
  cbn [app occurrences]. f_equal.
  rewrite app_assoc. apply occurrences_tag_free; [exact Hm|].
  now apply tag_free_app.
Qed.

Lemma occurrences_one_block m ws1 r s ws2 :
  In m markers -> blank ws1 -> blank ws2 -> tag_free r -> tag_free s ->
  occurrences m (one_block ws1 r s ws2) = 1.
Proof.
  intros Hm Hws1%blank_tag_free Hws2%blank_tag_free Hr Hs. unfold one_block.
  assert (Hrs : In reasoning_start markers) by (simpl; tauto).
  assert (Hre : In reasoning_end markers) by (simpl; tauto).
  assert (Hss : In solution_start markers) by (simpl; tauto).
  assert (Hse : In solution_end markers) by (simpl; tauto).
  rewrite (occurrences_tag_free m ws1 _ Hm Hws1).
  rewrite (occurrences_marker m reasoning_start r _ Hm Hrs Hr).
  change (reasoning_end ++ solution_start ++ s ++ solution_end ++ ws2)
    with (reasoning_end ++ [] ++ solution_start ++ s ++ solution_end ++ ws2).
  rewrite (occurrences_marker m reasoning_end [] _ Hm Hre eq_refl).
  rewrite (occurrences_marker m solution_start s _ Hm Hss Hs).
  rewrite <- (app_nil_r ws2).
  rewrite (occurrences_marker m solution_end ws2 _ Hm Hse Hws2).
  rewrite (occurrences_nil m Hm).
  simpl in Hm. destruct Hm as [<-|[<-|[<-|[<-|[]]]]]; reflexivity.
Qed.

(** ** More on the loops *)

Lemma answer_score_none g : answer_score g None = Raise AttributeError.
Proof. reflexivity. Qed.

Lemma answer_item_cases g t :
  (t = None /\ (exists g', g = Some g') /\
   answer_item g t = Raise AttributeError) \/
  answer_item g t = Ok (answer_value g t).
Proof.
  destruct t as [t|].
  - right. apply answer_item_string. discriminate.
  - destruct g as [g|]; [left; eauto | right; reflexivity].
Qed.

Lemma check_answer_loop_inv pairs : forall acc out,
  check_answer_loop pairs acc = Ok out ->
  out = acc ++ map (fun p => answer_value p.1 p.2) pairs /\
  Forall (fun p : option str * option str =>
            answer_item p.1 p.2 = Ok (answer_value p.1 p.2)) pairs.
Proof.
  induction pairs as [|[g t] pairs IH]; intros acc out; simpl.
  - intros [= <-]. split; [now rewrite app_nil_r | constructor].
  - destruct (answer_item_cases g t) as [(-> & [g' ->] & _)|E].
    + rewrite answer_score_none. discriminate.
    + destruct g as [g|]; simpl in E.
      * rewrite E. cbn [bind]. intros H. apply IH in H as [-> H].
        split; [now rewrite <- app_assoc | now constructor].
      * intros H. apply IH in H as [-> H].
        split; [now rewrite <- app_assoc | now constructor].
Qed.

Lemma check_answer_loop_raise pairs : forall acc e,
  check_answer_loop pairs acc = Raise e ->
  e = AttributeError /\ exists i g, pairs !! i = Some (Some g, None).
Proof.
  induction pairs as [|[g t] pairs IH]; intros acc e; simpl; [discriminate|].
  destruct (answer_item_cases g t) as [(-> & [g' ->] & _)|E].
  - rewrite answer_score_none. intros [= <-]. split; [reflexivity|].
    now exists 0, g'.
  - destruct g as [g|]; simpl in E.
    + rewrite E. cbn [bind]. intros H. apply IH in H as [-> (i & g' & H)].
      split; [reflexivity|]. now exists (S i), g'.
    + intros H. apply IH in H as [-> (i & g' & H)].
      split; [reflexivity|]. now exists (S i), g'.
Qed.

Lemma check_answer_loop_none pairs : forall acc i g,
  pairs !! i = Some (Some g, None) ->
  raises (check_answer_loop pairs acc).
Proof.
  induction pairs as [|[g0 t] pairs IH]; intros acc [|i] g; simpl;
    try discriminate.
  - intros [= -> ->]. rewrite answer_score_none. now exists AttributeError.
  - intros H. destruct g0 as [g0|]; [|now apply (IH _ i g)].
    destruct (answer_score g0 t) as [x|e]; cbn [bind];
      [now apply IH with i g | now exists e].
Qed.

Lemma lookup_zip_map_inv {A B C} (f : A -> C) (l : list A) (k : list B) i x y :
  zip (map f l) k !! i = Some (x, y) ->
  exists a, l !! i = Some a /\ f a = x /\ k !! i = Some y.
Proof.
  revert k i. induction l as [|a l IH]; intros [|b k] [|i]; simpl;
    try discriminate.
  - intros [= <- <-]. now exists a.
  - apply IH.
Qed.

Lemma check_answer_lookup_ok prompts completions answer kargs scores i c t :
  check_answer prompts completions answer kargs = Ok scores ->
  completions !! i = Some c -> answer !! i = Some t ->
  scores !! i = Some (answer_value (extract match_format c) t) /\
  answer_item (extract match_format c) t
  = Ok (answer_value (extract match_format c) t).
Proof.
  unfold check_answer. intros H Hc Ht.
  apply check_answer_loop_inv in H as [-> H]. simpl.
  pose proof (lookup_zip_map (extract match_format) _ _ _ _ _ Hc Ht) as Hz.
  split.
  - now rewrite list_lookup_fmap, Hz.
  - rewrite Forall_forall in H. apply (H (extract match_format c, t)).
    apply list_elem_of_lookup. eauto.
Qed.

(** ** Values of the scores *)

Ltac in_values := cbn [In]; repeat (first [left; reflexivity | right]).

Lemma answer_value_in g t : In (answer_value g t) answer_scores.
Proof.
  unfold answer_value, answer_scores. destruct g as [g|]; [|now left].
  unfold answer_item, answer_score.
  destruct (py_eq g t); [in_values|].
  destruct t as [t|]; cbn [strip_method bind try_except]; [|now left].
  destruct (str_eqb (strip g) (strip t)); [in_values|].
  cbn [float_of]. destruct (float_of_str g) as [fg|]; cbn [bind try_except];
    [|in_values].
  destruct (float_of_str t) as [ft|]; cbn [bind try_except]; [|in_values].
  unfold truediv. destruct (ft =? 0)%float; cbn [bind try_except];
    [in_values|].
  destruct ((0.9 <=? fg / ft)%float && (fg / ft <=? 1.1)%float); [in_values|].
  destruct ((0.8 <=? fg / ft)%float && (fg / ft <=? 1.2)%float); in_values.
Qed.

Lemma answer_value_zero g t :
  t <> None -> answer_value g t = PyInt 0 <-> g = None.
Proof.
  intros Ht. destruct t as [t|]; [|congruence]. destruct g as [g|];
    [|split; reflexivity]. split; [|discriminate]. intros H. exfalso.
  revert H. unfold answer_value, answer_item, answer_score.
  destruct (py_eq g (Some t)); [discriminate|].
  cbn [strip_method bind try_except].
  destruct (str_eqb (strip g) (strip t)); [discriminate|].
  cbn [float_of]. destruct (float_of_str g) as [fg|]; cbn [bind try_except];
    [|discriminate].
  destruct (float_of_str t) as [ft|]; cbn [bind try_except]; [|discriminate].
  unfold truediv. destruct (ft =? 0)%float; cbn [bind try_except];
    [discriminate|].
  destruct ((0.9 <=? fg / ft)%float && (fg / ft <=? 1.1)%float);
    [discriminate|].
  destruct ((0.8 <=? fg / ft)%float && (fg / ft <=? 1.2)%float); discriminate.
Qed.

Lemma number_item_in g t : In (number_item g t) number_scores.
Proof.
  unfold number_scores. destruct g as [g|]; [|now left]. cbn [number_item].
  rewrite number_score_cases.
  destruct (numbers_of g t) as [[fg ft]|]; [|now left].
  destruct (fg =? ft)%float; in_values.
Qed.

(** ** The numeric token of a block *)

Lemma find_startswith sub s : startswith sub s = true -> find sub s = Some 0.
Proof. intros H. destruct s; simpl; now rewrite H. Qed.

Lemma find_tag_free m u x :
  In m markers -> tag_free u ->
  find m (u ++ x) = option_map (Nat.add (length u)) (find m x).
Proof.
  intros Hm. destruct (marker_shape m Hm) as (t & -> & _). unfold tag_free.
  induction u as [|c u IH]; cbn [existsb app length find startswith].
  - intros _. now destruct (find (tag_open :: t) x).
  - intros [Hc Hu]%orb_false_iff. rewrite Hc. cbn [andb].
    rewrite (IH Hu). now destruct (find (tag_open :: t) x).
Qed.

Lemma find_other_marker m m' u x :
  In m markers -> In m' markers -> str_eqb m m' = false -> tag_free u ->
  find m (m' ++ u ++ x)
  = option_map (Nat.add (length m' + length u)) (find m x).
Proof.
  intros Hm Hm' Hne Hu.
  pose proof (startswith_marker m m' (u ++ x) Hm Hm') as Hs.
  rewrite Hne in Hs.
  destruct (marker_shape m' Hm') as (t' & -> & Ht').
  cbn [app] in Hs |- *. cbn [find]. rewrite Hs.
  rewrite app_assoc.
  rewrite (find_tag_free m (t' ++ u) x Hm) by now apply tag_free_app.
  destruct (find m x); [|reflexivity]. cbn [option_map length]. f_equal.
  rewrite length_app. lia.
Qed.

Lemma find_solution_start ws1 r x :
  blank ws1 -> tag_free r ->
  find solution_start
    (ws1 ++ reasoning_start ++ r ++ reasoning_end ++ solution_start ++ x)
  = Some (length (ws1 ++ reasoning_start ++ r ++ reasoning_end)).
Proof.
  intros Hws1%blank_tag_free Hr.
  assert (Hrs : In reasoning_start markers) by (simpl; tauto).
  assert (Hre : In reasoning_end markers) by (simpl; tauto).
  assert (Hss : In solution_start markers) by (simpl; tauto).
  rewrite (find_tag_free _ ws1 _ Hss Hws1).
  rewrite (find_other_marker _ reasoning_start r _ Hss Hrs eq_refl Hr).
  change (reasoning_end ++ solution_start ++ x)
    with (reasoning_end ++ [] ++ solution_start ++ x).
  rewrite (find_other_marker _ reasoning_end [] _ Hss Hre eq_refl eq_refl).
  rewrite (find_startswith _ _ (startswith_app solution_start x)).
  cbn [option_map]. f_equal. rewrite !length_app. simpl. lia.
Qed.

Lemma span_app_stop p s rest :
  forallb (fun c => negb (p c)) rest = true ->
  (span p (s ++ rest)).1 = (span p s).1.
Proof.
  intros Hrest. induction s as [|c s IH]; cbn [app].
  - destruct rest as [|c rest]; [reflexivity|]. simpl in *.
    apply andb_true_iff in Hrest as [Hc _].
    now destruct (p c).
  - simpl. destruct (p c); [|reflexivity].
    destruct (span p (s ++ rest)), (span p s). simpl in *. now f_equal.
Qed.

Lemma first_token_none s :
  forallb (fun c => negb (is_number_char c)) s = true -> first_token s = None.
Proof.
  induction s as [|c s IH]; [reflexivity|]. simpl.
  intros [Hc Hs]%andb_true_iff. destruct (is_number_char c); [discriminate|].
  now apply IH.
Qed.

Lemma first_token_app s rest :
  forallb (fun c => negb (is_number_char c)) rest = true ->
  first_token (s ++ rest) = first_token s.
Proof.
  intros Hrest. induction s as [|c s IH]; cbn [app].
  - now apply first_token_none.
  - cbn [first_token]. destruct (is_number_char c); [|exact IH].
    f_equal. now apply (span_app_stop is_number_char (c :: s) rest).
Qed.

Lemma blank_no_number ws :
  blank ws -> forallb (fun c => negb (is_number_char c)) ws = true.
Proof.
  unfold blank. induction ws as [|c ws IH]; [reflexivity|]. cbn [forallb].
  intros [Hc Hws]%andb_true_iff. rewrite (IH Hws), andb_true_r.
  destruct (is_number_char c) eqn:E; [|reflexivity].
  apply is_number_char_not_space in E. congruence.
Qed.

Lemma token_one_block ws1 r s ws2 :
  blank ws1 -> blank ws2 -> tag_free r ->
  token_after_marker (one_block ws1 r s ws2) = first_token s.
Proof.
  intros Hws1 Hws2 Hr. unfold token_after_marker, one_block.
  rewrite (find_solution_start ws1 r _ Hws1 Hr).
  replace (ws1 ++ reasoning_start ++ r ++ reasoning_end ++
           solution_start ++ s ++ solution_end ++ ws2)
    with ((ws1 ++ reasoning_start ++ r ++ reasoning_end ++ solution_start)
          ++ s ++ solution_end ++ ws2) by (now rewrite <- !app_assoc).
  replace (length (ws1 ++ reasoning_start ++ r ++ reasoning_end)
           + length solution_start)
    with (length (ws1 ++ reasoning_start ++ r ++ reasoning_end
                  ++ solution_start))
    by (rewrite !length_app; lia).
  rewrite drop_app_length. apply first_token_app.
  rewrite forallb_app. apply andb_true_iff. split; [reflexivity|].
  now apply blank_no_number.
Qed.

(** ** A missing marker *)

Lemma occurrences_app_marker m u v : 1 <= occurrences m (u ++ m ++ v).
Proof.
  induction u as [|c u IH]; cbn [app].
  - destruct (m ++ v) eqn:E; cbn [occurrences]; rewrite <- E;
      rewrite startswith_app; lia.
  - cbn [occurrences]. lia.
Qed.

Lemma format_occurs_marker c m :
  format_occurs c -> In m markers -> 1 <= occurrences m c.
Proof.
  intros (pre & ws1 & r & mid & s & ws2 & post & -> & _) Hm.
  unfold tagged. simpl in Hm. destruct Hm as [<-|[<-|[<-|[<-|[]]]]].
  - rewrite <- !app_assoc, (app_assoc pre ws1).
    apply occurrences_app_marker.
  - rewrite <- !app_assoc.
    rewrite (app_assoc ws1), (app_assoc (ws1 ++ _)), (app_assoc pre).
    apply occurrences_app_marker.
  - rewrite <- !app_assoc.
    rewrite (app_assoc ws1), (app_assoc (ws1 ++ _)),
      (app_assoc ((ws1 ++ _) ++ _)), (app_assoc (((ws1 ++ _) ++ _) ++ _)),
      (app_assoc pre).
    apply occurrences_app_marker.
  - rewrite <- !app_assoc.
    rewrite (app_assoc ws1), (app_assoc (ws1 ++ _)),
      (app_assoc ((ws1 ++ _) ++ _)), (app_assoc (((ws1 ++ _) ++ _) ++ _)),
      (app_assoc ((((ws1 ++ _) ++ _) ++ _) ++ _)),
      (app_assoc (((((ws1 ++ _) ++ _) ++ _) ++ _) ++ _)),
      (app_assoc pre).
    apply occurrences_app_marker.
Qed.

(** ** The ground truth of a dataset record *)

(** X1: [extract_hash_answer] raises nothing: its result is [None] exactly
    when the text holds no [####], and otherwise the text between the first
    [####] and the next one (or the end of the text), stripped. *)
Theorem extract_hash_answer_between :
  (forall text,
      extract_hash_answer text
      = Ok (option_map (fun rest => strip (before hashes rest))
                       (after hashes text))) /\
  (forall text,
      extract_hash_answer text = Ok None <-> contains hashes text = false).
Proof.
  split; [exact extract_hash_answer_spec|].
  intros text. rewrite extract_hash_answer_spec, contains_false_find.
  unfold after. destruct (find hashes text); simpl; split; congruence.
Qed.

(** X2: a ground truth [extract_hash_answer] returns neither starts nor
    ends with white space, so [strip] leaves it as it is. *)
Theorem extract_hash_answer_stripped text t :
  extract_hash_answer text = Ok (Some t) -> stripped t /\ strip t = t.
Proof.
  rewrite extract_hash_answer_spec.
  destruct (after hashes text) as [rest|]; [|discriminate].
  intros [= <-]. split; [apply strip_stripped | apply strip_idempotent].
Qed.

Lemma extract_hash_answer_stripped_witness :
  stripped (lit "72") /\ strip (lit "72") = lit "72".
Proof.
  apply (extract_hash_answer_stripped gsm8k_answer (lit "72")).
  vm_compute. reflexivity.
Defined.

Lemma find_after_plain sep a b c0 :
  sep = c0 :: drop 1 sep -> existsb (chr_eqb c0) a = false ->
  find sep (a ++ sep ++ b) = Some (length a).
Proof.
  intros Hsep. induction a as [|c a IH]; cbn [existsb app length].
  - intros _. apply find_startswith, startswith_app.
  - intros [Hc Ha]%orb_false_iff. cbn [find]. rewrite Hsep at 1.
    cbn [startswith]. rewrite Hc. cbn [andb]. now rewrite (IH Ha).
Qed.

(** X3: for a text made of a part without [#], then [####], then a part
    without [####], [extract_hash_answer] returns the second part,
    stripped. *)
Theorem extract_hash_answer_round_trip a b :
  existsb (chr_eqb "#"%char) a = false -> contains hashes b = false ->
  extract_hash_answer (a ++ hashes ++ b) = Ok (Some (strip b)).
Proof.
  intros Ha Hb. rewrite extract_hash_answer_spec. unfold after.
  rewrite (find_after_plain hashes a b "#"%char eq_refl Ha).
  cbn [option_map]. do 2 f_equal.
  rewrite app_assoc, <- length_app, drop_app_length.
  unfold before. apply contains_false_find in Hb. now rewrite Hb.
Qed.

Lemma extract_hash_answer_round_trip_witness :
  extract_hash_answer (lit "48+24 = 72 clips. " ++ hashes ++ lit " 72")
  = Ok (Some (strip (lit " 72"))).
Proof.
  apply (extract_hash_answer_round_trip (lit "48+24 = 72 clips. ") (lit " 72")).
  - vm_compute. reflexivity.
  - vm_compute. reflexivity.
Defined.

(** ** Blocks whose texts hold no marker *)

(** X4: from a completion that is one tagged block, up to white space
    around it, whose reasoning and solution texts are not empty and hold no
    [<], [check_answer] extracts the solution text as it is; with that text
    as the ground truth the score is 3.0. *)
Theorem check_answer_reads_block
    prompts (completions : list str) (answer : list (option str)) kargs
    (i : nat) ws1 r s ws2 :
  blank ws1 -> blank ws2 -> r <> [] -> s <> [] -> tag_free r -> tag_free s ->
  Forall is_string answer ->
  completions !! i = Some (one_block ws1 r s ws2) ->
  answer !! i = Some (Some s) ->
  extract match_format (one_block ws1 r s ws2) = Some s /\
  exists scores,
    check_answer prompts completions answer kargs = Ok scores /\
    scores !! i = Some (PyFloat 3.0).
Proof.
  intros Hws1 Hws2 Hr Hs Fr Fs H Hc Ht.
  pose proof (extract_one_block ws1 r s ws2 Hws1 Hws2 Hr Hs Fr Fs) as E.
  split; [exact E|].
  destruct (check_answer_lookup prompts _ _ kargs _ _ _ H Hc Ht)
    as (scores & Hsc & Hi).
  exists scores. split; [exact Hsc|]. rewrite Hi, E.
  unfold answer_value, answer_item, answer_score. rewrite py_eq_string.
  now rewrite (proj2 (str_eqb_eq s s) eq_refl).
Qed.

Lemma check_answer_reads_block_witness :
  extract match_format
    (one_block [newline] (lit "12 * 6 = 72") (lit " 72 ") (lit " "))
  = Some (lit " 72 ") /\
  exists scores,
    check_answer PyNone
      [one_block [newline] (lit "12 * 6 = 72") (lit " 72 ") (lit " ")]
      [Some (lit " 72 ")] ∅ = Ok scores /\
    scores !! 0 = Some (PyFloat 3.0).
Proof.
  apply (check_answer_reads_block PyNone _ _ ∅ 0
           [newline] (lit "12 * 6 = 72") (lit " 72 ") (lit " ")).
  - reflexivity.
  - reflexivity.
  - discriminate.
  - discriminate.
  - reflexivity.
  - reflexivity.
  - repeat constructor; discriminate.
  - reflexivity.
  - reflexivity.
Defined.

(** X5: such a block holds each of the four markers exactly once, and
    [match_format_approximately] gives it 2.0. *)
Theorem match_format_approximately_one_block
    prompts (completions : list str) kargs (i : nat) ws1 r s ws2 :
  blank ws1 -> blank ws2 -> tag_free r -> tag_free s ->
  completions !! i = Some (one_block ws1 r s ws2) ->
  (forall m, In m markers -> count (one_block ws1 r s ws2) m = 1) /\
  match_format_approximately prompts completions kargs !! i
  = Some (PyFloat 2.0).
Proof.
  intros Hws1 Hws2 Fr Fs Hc.
  assert (Hocc : forall m, In m markers ->
                           occurrences m (one_block ws1 r s ws2) = 1).
  { intros m Hm. now apply occurrences_one_block. }
  split.
  - intros m Hm. rewrite (count_marker _ m Hm). now apply Hocc.
  - rewrite match_format_approximately_map, list_lookup_fmap, Hc. simpl.
    rewrite approximate_score_sum, marker_sum_faults.
    now rewrite (proj2 (faults_zero _) Hocc).
Qed.

Lemma match_format_approximately_one_block_witness :
  (forall m, In m markers -> count answer_2 m = 1) /\
  match_format_approximately PyNone [lit "no tags"; answer_2] ∅ !! 1
  = Some (PyFloat 2.0).
Proof.
  apply (match_format_approximately_one_block PyNone
           [lit "no tags"; answer_2] ∅ 1 [] (lit "Let me think!") (lit "2") []);
    reflexivity.
Defined.

(** ** Scores of zero *)

(** X6: with ground truths that are strings, [check_answer] gives the
    integer 0 to exactly the completions to which [match_format_exactly]
    gives the integer 0, those in which the pattern does not match. *)
Theorem check_answer_zero_iff_no_format
    prompts (completions : list str) (answer : list (option str)) kargs
    (i : nat) (c : str) (t : option str) :
  Forall is_string answer ->
  completions !! i = Some c -> answer !! i = Some t ->
  exists scores,
    check_answer prompts completions answer kargs = Ok scores /\
    (scores !! i = Some (PyInt 0) <->
     match_format_exactly prompts completions kargs !! i = Some (PyInt 0)) /\
    (scores !! i = Some (PyInt 0) <-> search match_format c = None).
Proof.
  intros H Hc Ht.
  destruct (check_answer_lookup prompts _ _ kargs _ _ _ H Hc Ht)
    as (scores & Hs & Hi).
  exists scores. split; [exact Hs|].
  assert (Hstr : t <> None).
  { rewrite Forall_forall in H. apply (H t), list_elem_of_lookup. eauto. }
  assert (E : scores !! i = Some (PyInt 0) <-> search match_format c = None).
  { rewrite Hi, <- extract_none_search,
      <- (answer_value_zero (extract match_format c) t Hstr).
    split; [now intros [= ->] | now intros ->]. }
  split; [|exact E]. rewrite E.
  rewrite match_format_exactly_map, list_lookup_fmap, Hc. simpl.
  destruct (exact_score_cases c) as [[[m Hm] ->]|[Hn ->]].
  - rewrite Hm. split; discriminate.
  - tauto.
Qed.

Lemma check_answer_zero_iff_no_format_witness :
  exists scores,
    check_answer PyNone [lit "no tags"; answer_2]
      [Some (lit "2"); Some (lit "2")] ∅ = Ok scores /\
    (scores !! 0 = Some (PyInt 0) <->
     match_format_exactly PyNone [lit "no tags"; answer_2] ∅ !! 0
     = Some (PyInt 0)) /\
    (scores !! 0 = Some (PyInt 0) <->
     search match_format (lit "no tags") = None).
Proof.
  apply (check_answer_zero_iff_no_format PyNone [lit "no tags"; answer_2]
           [Some (lit "2"); Some (lit "2")] ∅ 0 (lit "no tags")
           (Some (lit "2"))).
  - repeat constructor; discriminate.
  - reflexivity.
  - reflexivity.
Defined.

(** X7: a completion in which one of the four markers does not occur is
    given the integer 0 by [match_format_exactly], and by [check_answer]
    when it returns. *)
Theorem missing_marker_scores_zero :
  (forall prompts (completions : list str) kargs (i : nat) (c m : str),
      In m markers -> count c m = 0 -> completions !! i = Some c ->
      match_format_exactly prompts completions kargs !! i = Some (PyInt 0)) /\
  (forall prompts (completions : list str) (answer : list (option str)) kargs
          (i : nat) (c m : str) scores t,
      In m markers -> count c m = 0 -> completions !! i = Some c ->
      check_answer prompts completions answer kargs = Ok scores ->
      answer !! i = Some t -> scores !! i = Some (PyInt 0)).
Proof.
  assert (Hn : forall c m, In m markers -> count c m = 0 ->
                           search match_format c = None).
  { intros c m Hm Hcount.
    destruct (search match_format c) as [x|] eqn:E; [|reflexivity].
    assert (Hocc : format_occurs c) by (apply search_match_format; eauto).
    pose proof (format_occurs_marker c m Hocc Hm) as Hge.
    rewrite <- (count_marker c m Hm) in Hge. lia. }
  split.
  - intros prompts completions kargs i c m Hm Hcount Hc.
    rewrite match_format_exactly_map, list_lookup_fmap, Hc. simpl.
    unfold exact_score. now rewrite (Hn c m Hm Hcount).
  - intros prompts completions answer kargs i c m scores t Hm Hcount Hc Hs Ht.
    destruct (check_answer_lookup_ok _ _ _ _ _ _ _ _ Hs Hc Ht) as [-> _].
    now rewrite (proj2 (extract_none_search c) (Hn c m Hm Hcount)).
Qed.

Lemma missing_marker_scores_zero_witness :
  match_format_exactly PyNone [answer_words] ∅ !! 0 = Some (PyInt 0) /\
  [PyInt 0] !! 0 = Some (PyInt 0).
Proof.
  split.
  - apply (proj1 missing_marker_scores_zero PyNone [answer_words] ∅ 0
             answer_words reasoning_start).
    + simpl. tauto.
    + vm_compute. reflexivity.
    + reflexivity.
  - apply (proj2 missing_marker_scores_zero PyNone [answer_words] [None] ∅ 0
             answer_words reasoning_start [PyInt 0] None).
    + simpl. tauto.
    + vm_compute. reflexivity.
    + reflexivity.
    + vm_compute. reflexivity.
    + reflexivity.
Defined.

(** ** Values and number of the scores *)

(** X8: every score [check_answer] returns is one of 0, 3.0, 1.5, 0.5,
    0.25, -1.0 and -0.5. *)
Theorem check_answer_score_values
    prompts (completions : list str) (answer : list (option str)) kargs
    scores :
  check_answer prompts completions answer kargs = Ok scores ->
  Forall (fun x => In x answer_scores) scores.
Proof.
  unfold check_answer. intros H. apply check_answer_loop_inv in H as [-> _].
  simpl. apply Forall_fmap, Forall_forall. intros [g t] _.
  apply answer_value_in.
Qed.

Lemma check_answer_score_values_witness :
  Forall (fun x => In x answer_scores) [PyFloat 0.25; PyInt 0].
Proof.
  apply (check_answer_score_values PyNone [answer_09; lit "no tags"]
           [Some (lit "0.1"); None] ∅).
  vm_compute. reflexivity.
Defined.

(** X9: every score [check_numbers] returns is one of 0, 1.5 and 0.0. *)
Theorem check_numbers_score_values
    prompts (completions : list str) (answer : list (option str)) kargs
    scores :
  check_numbers prompts completions answer kargs = Ok scores ->
  Forall (fun x => In x number_scores) scores.
Proof.
  rewrite check_numbers_cases. intros H.
  assert (E : scores = map (fun p => number_item p.1 p.2)
                (zip (map (extract match_numbers) completions) answer)).
  { destruct (kargs !! "question") as [q|]; [|discriminate].
    destruct (getitem0 q); [|discriminate].
    destruct answer; [discriminate|]. destruct completions; [discriminate|].
    congruence. }
  rewrite E. apply Forall_fmap, Forall_forall. intros [g t] _.
  apply number_item_in.
Qed.

Lemma check_numbers_score_values_witness :
  Forall (fun x => In x number_scores) [PyFloat 1.5; PyInt 0].
Proof.
  apply (check_numbers_score_values PyNone
           [answer_words; lit "<SOLUTION>none"]
           [Some (lit " 0.340 "); Some (lit "1")] question_kargs).
  vm_compute. reflexivity.
Defined.

(** X10: [check_answer] and [check_numbers] score as many completions as
    the shorter of the two lists holds: what the longer list holds beyond
    that is left out. *)
Theorem scores_stop_at_shorter_list :
  (forall prompts (completions : list str) (answer : list (option str)) kargs
          scores,
      check_answer prompts completions answer kargs = Ok scores ->
      length scores = Nat.min (length completions) (length answer)) /\
  (forall prompts (completions : list str) (answer : list (option str)) kargs
          scores,
      check_numbers prompts completions answer kargs = Ok scores ->
      length scores = Nat.min (length completions) (length answer)).
Proof.
  split.
  - intros prompts completions answer kargs scores H. unfold check_answer in H.
    apply check_answer_loop_inv in H as [-> _]. simpl.
    now rewrite length_map, length_zip_with, length_map.
  - intros prompts completions answer kargs scores H.
    rewrite check_numbers_cases in H.
    destruct (kargs !! "question") as [q|]; [|discriminate].
    destruct (getitem0 q); [|discriminate].
    destruct answer as [|t answer]; [discriminate|].
    destruct completions as [|c completions]; [discriminate|].
    injection H as <-.
    change (length (map (fun p => number_item p.1 p.2)
              (zip (map (extract match_numbers) (c :: completions))
                   (t :: answer)))
            = Nat.min (length (c :: completions)) (length (t :: answer))).
    now rewrite length_map, length_zip_with, length_map.
Qed.

Lemma scores_stop_at_shorter_list_witness :
  length [PyFloat 3.0] = Nat.min 2 1 /\ length [PyFloat 1.5] = Nat.min 1 3.
Proof.
  split.
  - apply (proj1 scores_stop_at_shorter_list PyNone [answer_2; answer_7]
             [Some (lit "2")] ∅).
    vm_compute. reflexivity.
  - apply (proj2 scores_stop_at_shorter_list PyNone [answer_2]
             [Some (lit "2"); None; Some (lit "5")] question_kargs).
    vm_compute. reflexivity.
Defined.

(** ** What the reward functions raise *)

(** X11: [check_answer] raises nothing but [AttributeError], and raises it
    exactly when, at some place both lists reach, the pattern matches in
    the completion and the ground truth is [None]. *)
Theorem check_answer_raises_iff
    prompts (completions : list str) (answer : list (option str)) kargs :
  (forall e, check_answer prompts completions answer kargs = Raise e ->
             e = AttributeError) /\
  (raises (check_answer prompts completions answer kargs) <->
   exists i c,
     completions !! i = Some c /\ answer !! i = Some None /\
     search match_format c <> None).
Proof.
  unfold check_answer. split.
  - intros e H. now apply check_answer_loop_raise in H as [-> _].
  - split.
    + intros [e H]. apply check_answer_loop_raise in H as [_ (i & g & H)].
      apply lookup_zip_map_inv in H as (c & Hc & Hg & Ht).
      exists i, c. split; [exact Hc|]. split; [exact Ht|].
      rewrite <- extract_none_search. congruence.
    + intros (i & c & Hc & Ht & Hs).
      destruct (extract match_format c) as [g|] eqn:E.
      * apply check_answer_loop_none with i g.
        rewrite <- E. now apply lookup_zip_map.
      * now apply extract_none_search in E.
Qed.

Lemma getitem0_raise v e :
  getitem0 v = Raise e -> e = IndexError \/ e = TypeError.
Proof.
  destruct v as [|[|c s]|[|x l]]; simpl; try discriminate;
    intros [= <-]; auto.
Qed.

(** X12: [check_numbers] returns exactly when [question] is supplied,
    [question[0]] can be read and neither list is empty; what it raises
    otherwise is a [KeyError], an [IndexError] or a [TypeError], never an
    error of the scoring loop. *)
Theorem check_numbers_returns_iff
    prompts (completions : list str) (answer : list (option str)) kargs :
  (returns (check_numbers prompts completions answer kargs) <->
   exists q,
     kargs !! "question" = Some q /\ returns (getitem0 q) /\
     completions <> [] /\ answer <> []) /\
  (forall e, check_numbers prompts completions answer kargs = Raise e ->
             e = KeyError \/ e = IndexError \/ e = TypeError).
Proof.
  rewrite check_numbers_cases.
  destruct (kargs !! "question") as [q|].
  - destruct (getitem0 q) as [v|e0] eqn:Eq.
    + destruct answer as [|t answer], completions as [|c completions].
      * split; [|intros e [= <-]; auto].
        split; [intros [? [=]] | intros (? & _ & _ & ? & _); congruence].
      * split; [|intros e [= <-]; auto].
        split; [intros [? [=]] | intros (? & _ & _ & _ & ?); congruence].
      * split; [|intros e [= <-]; auto].
        split; [intros [? [=]] | intros (? & _ & _ & ? & _); congruence].
      * split; [|discriminate]. split; [|unfold returns; eauto].
        intros _. exists q. rewrite Eq. unfold returns. eauto.
    + split.
      * split; [intros [? [=]]|].
        intros (q' & [= <-] & [v Hv] & _). congruence.
      * intros e [= <-]. right. now apply (getitem0_raise q).
  - split; [|intros e [= <-]; auto].
    split; [intros [? [=]] | intros (? & [=] & _)].
Qed.

(** ** The ground truth of the dataset and the answer of a block *)

(** X13: when the ground truth comes from [extract_hash_answer] and the
    completion is one tagged block with tag-free texts, whose solution text
    differs from the ground truth but equals it once stripped,
    [check_answer] gives 1.5. *)
Theorem dataset_truth_up_to_white_space
    prompts (completions : list str) (answer : list (option str)) kargs
    (i : nat) (text t : str) ws1 r s ws2 :
  extract_hash_answer text = Ok (Some t) ->
  blank ws1 -> blank ws2 -> r <> [] -> s <> [] -> tag_free r -> tag_free s ->
  Forall is_string answer ->
  completions !! i = Some (one_block ws1 r s ws2) ->
  answer !! i = Some (Some t) ->
  s <> t -> strip s = t ->
  exists scores,
    check_answer prompts completions answer kargs = Ok scores /\
    scores !! i = Some (PyFloat 1.5).
Proof.
  intros Htext Hws1 Hws2 Hr Hs Fr Fs H Hc Ht Hne Hstrip.
  assert (Hst : strip t = t).
  { rewrite extract_hash_answer_spec in Htext.
    destruct (after hashes text); [|discriminate].
    injection Htext as <-. apply strip_idempotent. }
  destruct (check_answer_lookup prompts _ _ kargs _ _ _ H Hc Ht)
    as (scores & Hsc & Hi).
  exists scores. split; [exact Hsc|].
  rewrite Hi, (extract_one_block ws1 r s ws2 Hws1 Hws2 Hr Hs Fr Fs).
  unfold answer_value, answer_item, answer_score. rewrite py_eq_string.
  cbn [strip_method bind]. rewrite Hst, Hstrip.
  rewrite (proj2 (str_eqb_neq s t) Hne), (proj2 (str_eqb_eq t t) eq_refl).
  reflexivity.
Qed.

Lemma dataset_truth_up_to_white_space_witness :
  exists scores,
    check_answer PyNone [answer_72] [Some (lit "72")] ∅ = Ok scores /\
    scores !! 0 = Some (PyFloat 1.5).
Proof.
  apply (dataset_truth_up_to_white_space PyNone [answer_72] [Some (lit "72")]
           ∅ 0 gsm8k_answer (lit "72") [] (lit "x") (lit " 72 ") []).
  - vm_compute. reflexivity.
  - reflexivity.
  - reflexivity.
  - discriminate.
  - discriminate.
  - reflexivity.
  - reflexivity.
  - repeat constructor; discriminate.
  - reflexivity.
  - reflexivity.
  - discriminate.
  - vm_compute. reflexivity.
Defined.

(** X14: in a completion that is one tagged block, up to white space
    around it, whose reasoning text holds no [<], the token [check_numbers]
    extracts is the first run of digits and dots of the solution text, and
    there is none when that text holds no digit and no dot. *)
Theorem check_numbers_reads_solution
    prompts (completions : list str) (answer : list (option str)) kargs
    scores (i : nat) ws1 r s ws2 (t : option str) :
  blank ws1 -> blank ws2 -> tag_free r ->
  check_numbers prompts completions answer kargs = Ok scores ->
  completions !! i = Some (one_block ws1 r s ws2) -> answer !! i = Some t ->
  extract match_numbers (one_block ws1 r s ws2) = first_token s /\
  scores !! i = Some (number_item (first_token s) t).
Proof.
  intros Hws1 Hws2 Fr Hs Hc Ht.
  assert (E : extract match_numbers (one_block ws1 r s ws2) = first_token s).
  { rewrite extract_match_numbers. now apply token_one_block. }
  split; [exact E|].
  now rewrite (check_numbers_lookup _ _ _ _ _ _ _ _ Hs Hc Ht), E.
Qed.

Lemma check_numbers_reads_solution_witness :
  extract match_numbers
    (one_block [] (lit "12 * 6 = 72") (lit "about 72.5 clips") [])
  = first_token (lit "about 72.5 clips") /\
  [PyFloat 1.5] !! 0
  = Some (number_item (first_token (lit "about 72.5 clips"))
            (Some (lit "72.50"))).
Proof.
  apply (check_numbers_reads_solution PyNone
           [one_block [] (lit "12 * 6 = 72") (lit "about 72.5 clips") []]
           [Some (lit "72.50")] question_kargs [PyFloat 1.5] 0
           [] (lit "12 * 6 = 72") (lit "about 72.5 clips") []
           (Some (lit "72.50"))).
  - reflexivity.
  - reflexivity.
  - reflexivity.
  - vm_compute. reflexivity.
  - reflexivity.
  - reflexivity.
Defined.

(** ** A block inside other text *)

Lemma tagged_in_block pre ws1' r' mid' g ws2' post a r s z :
  tag_free a -> tag_free z -> tag_free r -> tag_free s ->
  pre ++ tagged ws1' r' mid' g ws2' ++ post = block_in a r s z ->
  pre ++ ws1' = a /\ ws2' ++ post = z.
Proof.
  intros Ha Hz Hr Hs H.
  assert (Hrs : In reasoning_start markers) by (simpl; tauto).
  assert (Hre : In reasoning_end markers) by (simpl; tauto).
  assert (Hss : In solution_start markers) by (simpl; tauto).
  assert (Hse : In solution_end markers) by (simpl; tauto).
  pose proof (f_equal lts H) as Hn. unfold tagged, block_in in Hn.
  rewrite !lts_app, (lts_marker _ Hrs), (lts_marker _ Hre),
    (lts_marker _ Hss), (lts_marker _ Hse) in Hn.
  apply tag_free_lts in Ha, Hz, Hr, Hs.
  assert (Hpre : tag_free (pre ++ ws1')).
  { apply tag_free_lts. rewrite lts_app. lia. }
  assert (Hr' : tag_free r') by (apply tag_free_lts; lia).
  assert (Hmid : tag_free mid') by (apply tag_free_lts; lia).
  assert (Hg : tag_free g) by (apply tag_free_lts; lia).
  apply tag_free_lts in Ha, Hr, Hs.
  unfold tagged, block_in in H. rewrite <- !app_assoc in H.
  rewrite (app_assoc pre ws1') in H.
  apply (split_at_marker _ _ _ _ _ Hrs Hpre Ha) in H as [E1 H].
  split; [exact E1|].
  apply (split_at_marker _ _ _ _ _ Hre Hr' Hr) in H as [_ H].
  change (mid' ++ solution_start ++ g ++ solution_end ++ ws2' ++ post
          = [] ++ solution_start ++ s ++ solution_end ++ z) in H.
  apply (split_at_marker _ _ [] _ _ Hss Hmid eq_refl) in H as [_ H].
  now apply (split_at_marker _ _ _ _ _ Hse Hg Hs) in H as [_ H].
Qed.

Lemma format_occurs_block_in a r s z :
  tag_free a -> tag_free z -> tag_free r -> tag_free s ->
  r <> [] -> s <> [] ->
  format_occurs (block_in a r s z) <-> opens_line a /\ closes_line z.
Proof.
  intros Ha Hz Fr Fs Hr Hs. split.
  - intros (pre & ws1 & r' & mid & g & ws2 & post & E & Hb & Hw1 & _ & _
            & Hw2 & He).
    symmetry in E.
    apply (tagged_in_block _ _ _ _ _ _ _ _ _ _ _ Ha Hz Fr Fs) in E
      as [<- <-].
    split; [now exists pre, ws1 | now exists ws2, post].
  - intros [(p & w1 & -> & Hb & Hw1) (w2 & q & -> & Hw2 & He)].
    exists p, w1, r, [], s, w2, q. unfold block_in, tagged.
    rewrite <- !app_assoc. auto 10.
Qed.

(** X15: a block with tag-free, non-empty texts, between two tag-free
    texts, is given 3.0 by [match_format_exactly] if and only if only white
    space lies between the start of a line and the block, and between the
    block and the end of a line; otherwise it is given the integer 0. *)
Theorem match_format_exactly_block_in
    prompts (completions : list str) kargs (i : nat) a r s z :
  tag_free a -> tag_free z -> tag_free r -> tag_free s ->
  r <> [] -> s <> [] ->
  completions !! i = Some (block_in a r s z) ->
  (match_format_exactly prompts completions kargs !! i = Some (PyFloat 3.0)
   <-> opens_line a /\ closes_line z) /\
  (match_format_exactly prompts completions kargs !! i = Some (PyInt 0)
   <-> ~ (opens_line a /\ closes_line z)).
Proof.
  intros Ha Hz Fr Fs Hr Hs Hc.
  rewrite match_format_exactly_map, list_lookup_fmap, Hc. simpl.
  rewrite <- (format_occurs_block_in a r s z Ha Hz Fr Fs Hr Hs).
  rewrite <- search_match_format.
  destruct (exact_score_cases (block_in a r s z)) as [[Hm ->]|[Hn ->]].
  - split; [tauto|]. split; [discriminate | tauto].
  - rewrite Hn. split.
    + split; [discriminate | intros [? [=]]].
    + split; [intros _ [? [=]] | reflexivity].
Qed.

Lemma match_format_exactly_block_in_witness :
  (match_format_exactly PyNone
     [block_in (lit "Sure! ") (lit "x") (lit "2") []] ∅ !! 0
   = Some (PyFloat 3.0)
   <-> opens_line (lit "Sure! ") /\ closes_line []) /\
  (match_format_exactly PyNone
     [block_in (lit "Sure! ") (lit "x") (lit "2") []] ∅ !! 0
   = Some (PyInt 0)
   <-> ~ (opens_line (lit "Sure! ") /\ closes_line [])).
Proof.
  apply (match_format_exactly_block_in PyNone
           [block_in (lit "Sure! ") (lit "x") (lit "2") []] ∅ 0
           (lit "Sure! ") (lit "x") (lit "2") []).
  - reflexivity.
  - reflexivity.
  - reflexivity.
  - reflexivity.
  - discriminate.
  - discriminate.
  - reflexivity.
Defined.

(** ** Text before a completion *)

Lemma marker_sum_tag_free u c : tag_free u -> marker_sum (u ++ c) = marker_sum c.
Proof.
  intros Hu. unfold marker_sum, markers, once. cbn [fold_left].
  now rewrite !(occurrences_tag_free _ u c) by (simpl; tauto).
Qed.

Lemma token_after_marker_tag_free u c :
  tag_free u -> token_after_marker (u ++ c) = token_after_marker c.
Proof.
  intros Hu. unfold token_after_marker.
  rewrite (find_tag_free solution_start u c) by (simpl; tauto).
  destruct (find solution_start c) as [i|]; [|reflexivity]. cbn [option_map].
  now rewrite <- Nat.add_assoc, <- drop_drop, drop_app_length.
Qed.

(** X16: text without [<] put before every completion changes no score of
    [match_format_approximately]. *)
Theorem match_format_approximately_prefix
    prompts (completions : list str) kargs (u : str) :
  tag_free u ->
  match_format_approximately prompts (map (app u) completions) kargs
  = match_format_approximately prompts completions kargs.
Proof.
  intros Hu. rewrite !match_format_approximately_map, map_map.
  apply map_ext. intros c.
  now rewrite !approximate_score_sum, marker_sum_tag_free.
Qed.

Lemma match_format_approximately_prefix_witness :
  match_format_approximately PyNone
    (map (app (lit "Sure! ")) [answer_2; lit "no tags"]) ∅
  = match_format_approximately PyNone [answer_2; lit "no tags"] ∅.
Proof.
  apply (match_format_approximately_prefix PyNone _ ∅ (lit "Sure! ")).
  reflexivity.
Defined.

(** X17: text without [<] put before every completion changes nothing in
    what [check_numbers] returns or raises. *)
Theorem check_numbers_prefix
    prompts (completions : list str) (answer : list (option str)) kargs
    (u : str) :
  tag_free u ->
  check_numbers prompts (map (app u) completions) answer kargs
  = check_numbers prompts completions answer kargs.
Proof.
  intros Hu. rewrite !check_numbers_cases.
  assert (E : map (extract match_numbers) (map (app u) completions)
              = map (extract match_numbers) completions).
  { rewrite map_map. apply map_ext. intros c.
    now rewrite !extract_match_numbers, token_after_marker_tag_free. }
  rewrite E. now destruct completions.
Qed.

Lemma check_numbers_prefix_witness :
  check_numbers PyNone (map (app (lit "Sure! 3 ")) [answer_words])
    [Some (lit "0.34")] question_kargs
  = check_numbers PyNone [answer_words] [Some (lit "0.34")] question_kargs.
Proof.
  apply (check_numbers_prefix PyNone [answer_words] [Some (lit "0.34")]
           question_kargs (lit "Sure! 3 ")).
  reflexivity.
Defined.
